(** * simulate_ratings: a verified model of the rating simulation script

    The script [assignments/simulate_ratings.py] draws, for every person
    and every product, one rating from fixed quality and bias tables plus a
    normal perturbation, and then summarises the ratings with pandas.

    Python's [float] is IEEE-754 binary64, and so is Rocq's primitive
    [float]: the arithmetic of the script is modelled on it bit for bit.
    Python integers are [Z], strings are [string], exceptions are values of
    [exn] carried by [result]. *)

From Stdlib Require Import ZArith List String Ascii Bool Lia Floats.
From Stdlib Require Import Permutation Sorted RelationClasses Finite.
From Stdlib Require QArith.
Import ListNotations.

Set Warnings "-inexact-float".
#[local] Open Scope string_scope.
#[local] Open Scope list_scope.
#[local] Open Scope Z_scope.

(** ** Exceptions *)

Inductive exn : Type :=
| KeyError (key : string)
| ValueError (msg : string)
| OverflowError (msg : string)
| ZeroDivisionError (msg : string).

Inductive result (A : Type) : Type :=
| Ok (a : A)
| Raise (e : exn).

Arguments Ok {A} a.
Arguments Raise {A} e.

Definition rbind {A B : Type} (r : result A) (k : A -> result B) : result B :=
  match r with
  | Ok a => k a
  | Raise e => Raise e
  end.

(** ** Python numbers *)

Module Py.

(** The two numeric types the script computes with. *)
Inductive num : Type :=
| Int (z : Z)
| Float (f : float).

(** Exact comparison of a binary64 value with an integer; [None] for NaN.
    A finite float [(s, m, e)] denotes [(-1)^s * m * 2^e]. *)
Definition SFcompare_Z (x : spec_float) (z : Z) : option comparison :=
  match x with
  | S754_nan => None
  | S754_infinity s => Some (if s then Lt else Gt)
  | S754_zero _ => Some (0 ?= z)
  | S754_finite s m e =>
      let sm := cond_Zopp s (Zpos m) in
      Some (if 0 <=? e then sm * 2 ^ e ?= z else sm ?= z * 2 ^ (- e))
  end.

(** [a < b].  Between an int and a float CPython compares the exact
    mathematical values; any comparison with NaN is false. *)
Definition lt (a b : num) : bool :=
  match a, b with
  | Int x, Int y => x <? y
  | Float x, Float y => PrimFloat.ltb x y
  | Float x, Int y =>
      match SFcompare_Z (Prim2SF x) y with Some Lt => true | _ => false end
  | Int x, Float y =>
      match SFcompare_Z (Prim2SF y) x with Some Gt => true | _ => false end
  end.

(** [a > b]. *)
Definition gt (a b : num) : bool :=
  match a, b with
  | Int x, Int y => y <? x
  | Float x, Float y => PrimFloat.ltb y x
  | Float x, Int y =>
      match SFcompare_Z (Prim2SF x) y with Some Gt => true | _ => false end
  | Int x, Float y =>
      match SFcompare_Z (Prim2SF y) x with Some Lt => true | _ => false end
  end.

(** [min(a, b)]: the builtin keeps its first argument unless a later one
    is strictly smaller. *)
Definition min (a b : num) : num := if lt b a then b else a.

(** [max(a, b)]: the builtin keeps its first argument unless a later one
    is strictly greater. *)
Definition max (a b : num) : num := if gt b a then b else a.

(** [float(z)]: the nearest binary64 value, ties to even;
    [OverflowError] when that would be infinite. *)
Definition float_of_int (z : Z) : result float :=
  match binary_normalize prec emax z 0 false with
  | S754_infinity _ => Raise (OverflowError "int too large to convert to float")
  | x => Ok (SF2Prim x)
  end.

(** [a * b]. *)
Definition mul (a b : num) : result num :=
  match a, b with
  | Int x, Int y => Ok (Int (x * y))
  | Float x, Float y => Ok (Float (x * y)%float)
  | Float x, Int y => rbind (float_of_int y) (fun y' => Ok (Float (x * y')%float))
  | Int x, Float y => rbind (float_of_int x) (fun x' => Ok (Float (x' * y)%float))
  end.

(** The integer nearest to [m * 2^e], ties to the even one. *)
Definition round_half_even (m : positive) (e : Z) : Z :=
  if 0 <=? e then Zpos m * 2 ^ e
  else
    let d := 2 ^ (- e) in
    let q := Zpos m / d in
    let r := Zpos m mod d in
    match 2 * r ?= d with
    | Lt => q
    | Gt => q + 1
    | Eq => if Z.even q then q else q + 1
    end.

(** [round(x)] with one argument: always an int; an int is returned
    unchanged, a float is rounded half to even. *)
Definition round (x : num) : result Z :=
  match x with
  | Int z => Ok z
  | Float f =>
      match Prim2SF f with
      | S754_nan => Raise (ValueError "cannot convert float NaN to integer")
      | S754_infinity _ =>
          Raise (OverflowError "cannot convert float infinity to integer")
      | S754_zero _ => Ok 0
      | S754_finite s m e => Ok (cond_Zopp s (round_half_even m e))
      end
  end.

(** An integer as an unrounded (mantissa, exponent 0) pair. *)
Definition SF_of_Z (z : Z) : spec_float :=
  match z with
  | Z0 => S754_zero false
  | Zpos p => S754_finite false p 0
  | Zneg p => S754_finite true p 0
  end.

(** [a / b], true division: always a float.  For two ints CPython
    returns the exact quotient rounded once. *)
Definition truediv (a b : num) : result float :=
  match a, b with
  | Int x, Int y =>
      if y =? 0 then Raise (ZeroDivisionError "division by zero")
      else
        match SF64div (SF_of_Z x) (SF_of_Z y) with
        | S754_infinity _ =>
            Raise (OverflowError "integer division result too large for a float")
        | q => Ok (SF2Prim q)
        end
  | Float x, Float y =>
      if PrimFloat.eqb y 0 then Raise (ZeroDivisionError "float division by zero")
      else Ok (x / y)%float
  | Float x, Int y =>
      if y =? 0 then Raise (ZeroDivisionError "float division by zero")
      else rbind (float_of_int y) (fun y' => Ok (x / y')%float)
  | Int x, Float y =>
      if PrimFloat.eqb y 0 then Raise (ZeroDivisionError "float division by zero")
      else rbind (float_of_int x) (fun x' => Ok (x' / y)%float)
  end.

End Py.

(** ** The rating of one (person, product) pair: lines 47 to 53 *)

(** [rating = max(1, min(5, rating))] *)
Definition clamp (rating : Py.num) : Py.num :=
  Py.max (Py.Int 1) (Py.min (Py.Int 5) rating).

(** [rating = round(rating * 2) / 2] *)
Definition quantize (rating : Py.num) : result float :=
  rbind (Py.mul rating (Py.Int 2)) (fun doubled =>
  rbind (Py.round doubled) (fun n =>
  Py.truediv (Py.Int n) (Py.Int 2))).

Definition compute_rating (base_score bias noise : float) : result float :=
  let rating := Py.Float (base_score + bias + noise)%float in
  let rating := clamp rating in
  quantize rating.

(** ** The parameter tables: lines 10 to 34 *)

Definition products : list string :=
  ["Laptop Pro"; "Wireless Headphones"; "Smart Watch"; "Tablet Mini"; "Gaming Mouse"].

Definition people : list string :=
  ["Alice"; "Bob"; "Carol"; "David"; "Emma"; "Frank"; "Grace"; "Henry"; "Iris"; "Jack"].

(** A dict literal, as its key-value pairs in source order. *)
Definition dict : Type := list (string * float).

(** [d[k]]: the value bound to [k] (the last such pair, as a dict literal
    overwrites), or [KeyError]. *)
Fixpoint dict_get (d : dict) (k : string) : result float :=
  match d with
  | [] => Raise (KeyError k)
  | (k', v) :: d' =>
      match dict_get d' k with
      | Ok v' => Ok v'
      | Raise _ => if String.eqb k k' then Ok v else Raise (KeyError k)
      end
  end.

Definition product_base_scores : dict :=
  [("Laptop Pro", 4.2); ("Wireless Headphones", 3.8); ("Smart Watch", 3.5);
   ("Tablet Mini", 3.0); ("Gaming Mouse", 4.0)]%float.

Definition person_bias : dict :=
  [("Alice", 0.8); ("Bob", 0.3); ("Carol", -0.2); ("David", 0.0); ("Emma", 0.5);
   ("Frank", -0.5); ("Grace", 0.1); ("Henry", -0.3); ("Iris", 0.4);
   ("Jack", -0.1)]%float.

(** One element of [ratings_data]: the dict with keys Person, Product and
    Rating built at lines 55 to 59. *)
Record rating_record : Type := mkRating {
  Person : string;
  Product : string;
  Rating : float
}.

(** ** What the script takes from numpy, random and pandas

    The generators behind [np.random] and [random] and the text pandas
    writes for a float64 cell are library code: the script is modelled over
    any implementation of them. *)
Class Library : Type := {
  (** state of numpy's global generator *)
  np_rng : Type;
  (** [np.random.seed(n)] *)
  np_random_seed : Z -> np_rng;
  (** [np.random.normal(loc, scale)]: one draw and the next state *)
  np_random_normal : float -> float -> np_rng -> float * np_rng;
  (** state of the [random] module's generator *)
  py_rng : Type;
  (** [random.seed(n)] *)
  random_seed : Z -> py_rng;
  (** the decimal text of a float64 value, as [to_csv] writes it; the
      script takes it from the library only off the rating scale *)
  float_repr : float -> string
}.

(** ** Program state and the state-and-exception monad *)

Section Script.

Context {L : Library}.

(** The process: both global generators, the module-level list
    [ratings_data], and the files written so far. *)
Record state : Type := mkState {
  np_state : np_rng;
  py_state : py_rng;
  ratings_data : list rating_record;
  files : list (string * string)
}.

Definition M (A : Type) : Type := state -> result (A * state).

Definition ret {A : Type} (a : A) : M A := fun st => Ok (a, st).

Definition bind {A B : Type} (m : M A) (k : A -> M B) : M B :=
  fun st =>
    match m st with
    | Ok (a, st') => k a st'
    | Raise e => Raise e
    end.

Definition lift {A : Type} (r : result A) : M A :=
  fun st =>
    match r with
    | Ok a => Ok (a, st)
    | Raise e => Raise e
    end.

Definition get_state : M state := fun st => Ok (st, st).

Definition modify (f : state -> state) : M unit := fun st => Ok (tt, f st).

(** A [for] loop over a list. *)
Fixpoint for_each {A : Type} (xs : list A) (body : A -> M unit) : M unit :=
  match xs with
  | [] => ret tt
  | x :: xs' => bind (body x) (fun _ => for_each xs' body)
  end.

End Script.

Declare Scope script_scope.
Delimit Scope script_scope with script.
Notation "x <- m ;; k" := (bind m (fun x => k))
  (at level 61, m at next level, right associativity) : script_scope.
Notation "m ;; k" := (bind m (fun _ => k))
  (at level 61, right associativity) : script_scope.

(** ** The Rating Generator: lines 36 to 59 *)

Section Generator.

Context {L : Library}.
#[local] Open Scope script_scope.

(** [np.random.normal(loc, scale)] on the global generator. *)
Definition np_normal (loc scale : float) : M float :=
  fun st =>
    let (x, g) := np_random_normal loc scale (np_state st) in
    Ok (x, mkState g (py_state st) (ratings_data st) (files st)).

(** [ratings_data.append(r)] *)
Definition append_rating (r : rating_record) : M unit :=
  modify (fun st =>
    mkState (np_state st) (py_state st) (ratings_data st ++ [r]) (files st)).

(** The body of the inner loop. *)
Definition rate (product_base_scores person_bias : dict)
    (person product : string) : M unit :=
  base_score <- lift (dict_get product_base_scores product) ;;
  bias <- lift (dict_get person_bias person) ;;
  noise <- np_normal 0 0.3 ;;
  rating <- lift (compute_rating base_score bias noise) ;;
  append_rating (mkRating person product rating).

(** The nested loop, over any tables. *)
Definition generate (people products : list string)
    (product_base_scores person_bias : dict) : M unit :=
  for_each people (fun person =>
    for_each products (fun product =>
      rate product_base_scores person_bias person product)).

End Generator.

(** ** pandas: the DataFrame and the operations the Summarizer calls *)

(** [pd.DataFrame(ratings_data)]: a frame with one row per dict, in list
    order, whose columns are the keys of the dicts: Person, Product and
    Rating.  An empty list gives the frame that has no rows and no columns
    either. *)
Definition DataFrame : Type := list rating_record.

Definition pd_DataFrame (data : list rating_record) : DataFrame := data.

(** Selecting a column by its name, as [groupby] and [pivot] do before
    anything else: [KeyError] on the frame of an empty list, which has no
    column of any name. *)
Definition require_column (df : DataFrame) (name : string) : result unit :=
  match df with
  | [] => Raise (KeyError name)
  | _ :: _ => Ok tt
  end.

Section InsertionSort.

Context {A : Type} (lt : A -> A -> bool).

(** Place [x] in front of the first element it is smaller than. *)
Fixpoint insert (x : A) (l : list A) : list A :=
  match l with
  | [] => [x]
  | y :: l' => if lt x y then x :: l else y :: insert x l'
  end.

(** Ascending insertion sort, elements taken from left to right.  It
    stands for numpy's default sort, which promises an ascending result
    but not the order in which equal values come out: among equal values
    the order produced here is one of those numpy may produce, and nothing
    proved below depends on it. *)
Definition insertion_sort (l : list A) : list A :=
  fold_left (fun sorted x => insert x sorted) l [].

End InsertionSort.

(** The distinct values of a key column in ascending order: the group keys
    of [groupby] and the axes of [pivot]. *)
Definition sorted_unique (l : list string) : list string :=
  insertion_sort String.ltb (nodup string_dec l).

(** Exact conversion of a count to float64. *)
Definition float_of_count (n : Z) : float :=
  SF2Prim (binary_normalize prec emax n 0 false).

(** One group's accumulator in [GroupBy.mean]: observations, running sum
    and the Kahan compensation term. *)
Record group_acc : Type := mkAcc {
  nobs : Z;
  sumx : float;
  compensation : float
}.

(** One row entering its group; a NaN value is skipped. *)
Definition kahan_add (a : group_acc) (val : float) : group_acc :=
  if is_nan val then a
  else
    let y := (val - compensation a)%float in
    let t := (sumx a + y)%float in
    let c := (t - sumx a - y)%float in
    mkAcc (nobs a + 1) t (if is_nan c then 0%float else c).

Definition accumulate (accs : list (string * group_acc)) (k : string) (val : float)
    : list (string * group_acc) :=
  map (fun ka => if String.eqb (fst ka) k then (fst ka, kahan_add (snd ka) val) else ka)
      accs.

Definition group_result (a : group_acc) : float :=
  if nobs a =? 0 then nan else (sumx a / float_of_count (nobs a))%float.

(** [df.groupby(key)['Rating'].mean()] on a frame that has its columns:
    the keys in ascending order, each with the mean of its rows.  One pass
    over the rows fills one accumulator per key.  The model is meant for
    ratings of the half-step scale, the only ones the script produces:
    their sums are exact, so that neither the order in which pandas adds nor
    its compensation can show in the result.  For other values the last
    digit of a mean may differ from the one pandas prints. *)
Definition groupby_mean (key : rating_record -> string) (df : DataFrame)
    : list (string * float) :=
  let init := map (fun k => (k, mkAcc 0 0 0)) (sorted_unique (map key df)) in
  let accs := fold_left (fun accs r => accumulate accs (key r) (Rating r)) df init in
  map (fun ka => (fst ka, group_result (snd ka))) accs.

(** [.sort_values(ascending=False)]: the entries in descending order of
    value, NaN entries last.  pandas reverses the non-NaN entries, sorts them
    ascending with numpy's default sort, and reverses the result; the order
    among entries of equal value is that sort's and is not promised. *)
Definition sort_values_descending (s : list (string * float)) : list (string * float) :=
  let non_nans := filter (fun kv => negb (is_nan (snd kv))) s in
  let nans := filter (fun kv => is_nan (snd kv)) s in
  rev (insertion_sort (fun a b => PrimFloat.ltb (snd a) (snd b)) (rev non_nans)) ++ nans.

(** ** The Summarizer: lines 72 to 89 *)

(** Line 76. *)
Definition tendency (avg_rating : float) : string :=
  if PrimFloat.ltb 3.5 avg_rating then "generous"
  else if PrimFloat.ltb avg_rating 3.0 then "harsh"
  else "neutral".

(** Line 83. *)
Definition quality (avg_rating : float) : string :=
  if PrimFloat.ltb 4.0 avg_rating then "excellent"
  else if PrimFloat.ltb 3.5 avg_rating then "good"
  else if PrimFloat.ltb 3.0 avg_rating then "average"
  else "poor".

(** Lines 74 to 77: one (person, mean, tendency) line per person, in the
    order printed; [KeyError] when the frame has no Person column to group
    by. *)
Definition person_summary (df : DataFrame) : result (list (string * float * string)) :=
  rbind (require_column df "Person") (fun _ =>
  let person_avg := sort_values_descending (groupby_mean Person df) in
  Ok (map (fun kv => (fst kv, snd kv, tendency (snd kv))) person_avg)).

(** Lines 81 to 84. *)
Definition product_summary (df : DataFrame) : result (list (string * float * string)) :=
  rbind (require_column df "Product") (fun _ =>
  let product_avg := sort_values_descending (groupby_mean Product df) in
  Ok (map (fun kv => (fst kv, snd kv, quality (snd kv))) product_avg)).

(** The person-by-product table of line 88. *)
Record PivotTable : Type := mkPivot {
  index_labels : list string;
  column_labels : list string;
  cells : list (list float)
}.

Fixpoint has_duplicates (l : list (string * string)) : bool :=
  match l with
  | [] => false
  | x :: l' =>
      existsb (fun y => String.eqb (fst x) (fst y) && String.eqb (snd x) (snd y)) l'
      || has_duplicates l'
  end.

(** The rating stored for a pair, NaN when the frame has no such row. *)
Definition cell (df : DataFrame) (person product : string) : float :=
  match find (fun r => String.eqb (Person r) person && String.eqb (Product r) product) df with
  | Some r => Rating r
  | None => nan
  end.

(** [df.pivot(index='Person', columns='Product', values='Rating')]: pandas
    selects the index column first, refuses a frame in which an
    (index, column) pair repeats, and fills the cells of pairs that do not
    occur with NaN. *)
Definition pivot (df : DataFrame) : result PivotTable :=
  rbind (require_column df "Person") (fun _ =>
  if has_duplicates (map (fun r => (Person r, Product r)) df)
  then Raise (ValueError "Index contains duplicate entries, cannot reshape")
  else
    let idx := sorted_unique (map Person df) in
    let cols := sorted_unique (map Product df) in
    Ok (mkPivot idx cols (map (fun p => map (fun q => cell df p q) cols) idx))).

(** ** The output artifact: line 92 *)

Definition double_quote : ascii := "034"%char.
Definition newline : string := String "010"%char EmptyString.

(** Whether a character occurs in a string. *)
Fixpoint occurs (c : ascii) (s : string) : bool :=
  match s with
  | EmptyString => false
  | String a s' => Ascii.eqb a c || occurs c s'
  end.

(** A field needs quoting when it holds the delimiter, the quote character
    or a character of the line terminator. *)
Fixpoint csv_special (s : string) : bool :=
  match s with
  | EmptyString => false
  | String c s' =>
      Ascii.eqb c ","%char || Ascii.eqb c double_quote
      || occurs c newline || csv_special s'
  end.

Fixpoint csv_escape (s : string) : string :=
  match s with
  | EmptyString => EmptyString
  | String c s' =>
      if Ascii.eqb c double_quote then String c (String c (csv_escape s'))
      else String c (csv_escape s')
  end.

(** Minimal quoting, as the csv writer does by default. *)
Definition csv_field (s : string) : string :=
  if csv_special s
  then String double_quote (csv_escape s ++ String double_quote EmptyString)%string
  else s.

Definition csv_row (fields : list string) : string :=
  String.concat "," (map csv_field fields).

(** The column names of a frame: none for the frame of an empty list. *)
Definition column_names (df : DataFrame) : list string :=
  match df with
  | [] => []
  | _ :: _ => ["Person"; "Product"; "Rating"]
  end.

(** The decimal numerals of the nine values of the rating scale. *)
Definition scale_text : list (float * string) :=
  [(1, "1.0"); (1.5, "1.5"); (2, "2.0"); (2.5, "2.5"); (3, "3.0"); (3.5, "3.5");
   (4, "4.0"); (4.5, "4.5"); (5, "5.0")]%float.

Section CsvExport.

Context {L : Library}.

(** The text [to_csv] writes for a float64 cell: nothing for NaN, and
    otherwise the shortest decimal numeral that reads back as the same
    float.  For a value of the rating scale that is one digit, a point and
    0 or 5; for the other values it is the library's. *)
Definition float_text (x : float) : string :=
  if is_nan x then ""
  else
    match find (fun vt => PrimFloat.eqb (fst vt) x) scale_text with
    | Some vt => snd vt
    | None => float_repr x
    end.

(** The rows [df.to_csv(path, index=False)] writes: the column names,
    then the cells of each row of the frame. *)
Definition csv_rows (df : DataFrame) : list string :=
  csv_row (column_names df)
  :: map (fun r => csv_row [Person r; Product r; float_text (Rating r)]) df.

(** The text of the file: every row followed by a line terminator. *)
Definition csv_text (df : DataFrame) : string :=
  String.concat "" (map (fun row => (row ++ newline)%string) (csv_rows df)).

Definition to_csv (df : DataFrame) (path : string) : M unit :=
  modify (fun st =>
    mkState (np_state st) (py_state st) (ratings_data st)
            ((path, csv_text df) :: files st)).

End CsvExport.

(** ** The whole script *)

(** What a run shows on the console, before formatting. *)
Record report : Type := mkReport {
  shown_dataset : DataFrame;
  shown_person_avg : list (string * float * string);
  shown_product_avg : list (string * float * string);
  shown_pivot : PivotTable;
  shown_total : nat
}.

Section Main.

Context {L : Library}.
#[local] Open Scope script_scope.

(** The script with the two seed literals of lines 6 and 7 as arguments.
    What the [print] calls show is collected, unformatted, in the report
    returned; a failing summary or [pivot] ends the run before the file is
    written. *)
Definition script (np_seed py_seed : Z) : M report :=
  modify (fun st => mkState (np_random_seed np_seed) (py_state st) (ratings_data st) (files st)) ;;
  modify (fun st => mkState (np_state st) (random_seed py_seed) (ratings_data st) (files st)) ;;
  modify (fun st => mkState (np_state st) (py_state st) [] (files st)) ;;
  generate people products product_base_scores person_bias ;;
  st <- get_state ;;
  let df := pd_DataFrame (ratings_data st) in
  person_avg <- lift (person_summary df) ;;
  product_avg <- lift (product_summary df) ;;
  pivot_table <- lift (pivot df) ;;
  to_csv df "product_ratings.csv" ;;
  ret (mkReport df person_avg product_avg pivot_table (List.length df)).

Definition main : M report := script 42 42.

End Main.

(** ** Notions the specification is stated with *)

(** Neither infinite nor NaN. *)
Definition SF_is_finite (x : spec_float) : bool :=
  match x with
  | S754_zero _ | S754_finite _ _ _ => true
  | _ => false
  end.

(** The exact rational value of a finite float, 0 for the others. *)
Definition float_Q (f : float) : QArith_base.Q :=
  match Prim2SF f with
  | S754_finite s m e =>
      let sm := cond_Zopp s (Zpos m) in
      if 0 <=? e then QArith_base.inject_Z (sm * 2 ^ e)
      else QArith_base.Qmake sm (Z.to_pos (2 ^ (- e)))
  | _ => QArith_base.inject_Z 0
  end.

(** The rating as the specification words it.  The rounding is stated on
    exact values, by what the nearest integer is, not by a way to compute
    it. *)
Module Spec.

(** Values below 1.0 become 1.0, values above 5.0 become 5.0. *)
Definition clamp (raw : float) : float :=
  if PrimFloat.ltb raw 1 then 1%float
  else if PrimFloat.ltb 5 raw then 5%float
  else raw.

(** [n] is the integer nearest to [q], and the even one of the two
    nearest when [q] lies midway between two integers. *)
Definition nearest_even (q : QArith_base.Q) (n : Z) : Prop :=
  QArith_base.Qle (QArith_base.Qminus q (QArith_base.Qmake 1 2)) (QArith_base.inject_Z n)
  /\ QArith_base.Qle (QArith_base.inject_Z n) (QArith_base.Qplus q (QArith_base.Qmake 1 2))
  /\ (QArith_base.Qeq (QArith_base.inject_Z n) (QArith_base.Qminus q (QArith_base.Qmake 1 2))
      \/ QArith_base.Qeq (QArith_base.inject_Z n) (QArith_base.Qplus q (QArith_base.Qmake 1 2)) ->
      Z.even n = true).

(** [rating] is the rating of the raw score [raw]: the float whose value
    is [n / 2], for the integer [n] nearest to twice the clamped raw
    score, ties to even. *)
Definition rated (raw rating : float) : Prop :=
  exists n : Z,
    nearest_even (QArith_base.Qmult (QArith_base.inject_Z 2) (float_Q (clamp raw))) n
    /\ SF_is_finite (Prim2SF rating) = true
    /\ QArith_base.Qeq (float_Q rating) (QArith_base.Qmake n 2).

End Spec.

(** The nine values of the half-step scale from 1 to 5. *)
Definition rating_scale : list float := [1; 1.5; 2; 2.5; 3; 3.5; 4; 4.5; 5]%float.

(** Rating value invariant, first half: the closed interval [1.0, 5.0]. *)
Definition in_rating_range (r : float) : bool :=
  PrimFloat.leb 1 r && PrimFloat.leb r 5.

(** Rating value invariant, second half: the exact value [m * 2^e] of the
    float is an integer multiple of one half. *)
Definition multiple_of_half (r : float) : bool :=
  match Prim2SF r with
  | S754_zero _ => true
  | S754_finite _ m e => (-1 <=? e) || (Zpos m mod 2 ^ (- e - 1) =? 0)
  | _ => false
  end.

Definition pair_of (r : rating_record) : string * string := (Person r, Product r).

Section Draws.

Context {L : Library}.

(** The first [n] draws of noise from generator state [g], and the state
    they leave. *)
Fixpoint np_draws (n : nat) (g : np_rng) : list float * np_rng :=
  match n with
  | O => ([], g)
  | S n' =>
      let xg := np_random_normal 0 0.3 g in
      let rest := np_draws n' (snd xg) in
      (fst xg :: fst rest, snd rest)
  end.

End Draws.

(** [generated f pbs pb pairs noise records]: the records are, pair by pair
    and draw by draw, the ratings that [f] computes from the tables and the
    noise. *)
Inductive generated (f : float -> float -> float -> result float) (pbs pb : dict)
    : list (string * string) -> list float -> list rating_record -> Prop :=
| generated_nil : generated f pbs pb [] [] []
| generated_cons person product noise base_score bias rating pairs draws records :
    dict_get pbs product = Ok base_score ->
    dict_get pb person = Ok bias ->
    f base_score bias noise = Ok rating ->
    generated f pbs pb pairs draws records ->
    generated f pbs pb ((person, product) :: pairs) (noise :: draws)
              (mkRating person product rating :: records).

(** [follows_formula pbs pb pairs noise records]: the records are, pair by
    pair and draw by draw, rated as the specification says: from the base
    quality the table [pbs] lists for the product, the bias the table [pb]
    lists for the person, and the pair's noise draw. *)
Inductive follows_formula (pbs pb : dict)
    : list (string * string) -> list float -> list rating_record -> Prop :=
| follows_nil : follows_formula pbs pb [] [] []
| follows_cons person product noise base_quality bias rating pairs draws records :
    In (product, base_quality) pbs ->
    In (person, bias) pb ->
    Spec.rated (base_quality + bias + noise) rating ->
    follows_formula pbs pb pairs draws records ->
    follows_formula pbs pb ((person, product) :: pairs) (noise :: draws)
                    (mkRating person product rating :: records).

(** The ratings of the rows whose key column holds [k], in row order. *)
Definition group_values (key : rating_record -> string) (k : string) (df : DataFrame)
    : list float :=
  map Rating (filter (fun r => String.eqb (key r) k) df).

(** The mean of a column of values as the accumulator of [groupby_mean]
    forms it. *)
Definition series_mean (vals : list float) : float :=
  group_result (fold_left kahan_add vals (mkAcc 0 0 0)).

(** The float that is [k] halves. *)
Definition of_halves (k : Z) : float := (float_of_count k / 2)%float.

(** How many halves a multiple of one half is: its double [m * 2^(e+1)]. *)
Definition halves (r : float) : Z :=
  match Prim2SF r with
  | S754_finite s m e => cond_Zopp s (Py.round_half_even m (e + 1))
  | _ => 0
  end.

(** The arithmetic mean of half-step values: their total, formed exactly
    in halves, divided by their number. *)
Definition exact_mean (vals : list float) : float :=
  let total := fold_right Z.add 0 (map halves vals) in
  let count := Z.of_nat (List.length vals) in
  (of_halves total / float_of_count count)%float.

(** [a] may stand before [b] in a descending listing: [b <= a], with NaN
    values after all others. *)
Definition descending (a b : float) : Prop :=
  PrimFloat.leb b a = true \/ is_nan b = true.

(** The records of a table, row by row: the matrix flattened back. *)
Definition flatten (t : PivotTable) : list rating_record :=
  List.concat (map (fun pr => map (fun qc => mkRating (fst pr) (fst qc) (snd qc))
                             (combine (column_labels t) (snd pr)))
              (combine (index_labels t) (cells t))).

(** Every (person, product) pair over the people and products of a frame
    occurs in it. *)
Definition complete (df : DataFrame) : Prop :=
  forall person product,
    In person (map Person df) -> In product (map Product df) ->
    In (person, product) (map pair_of df).

(** A generator that replays a fixed tape of standard-normal values, and a
    cell printer for the half-step scale: a small library to run the script
    on. *)
Definition tape_normal (loc scale : float) (tape : list float) : float * list float :=
  match tape with
  | [] => (loc, [])
  | z :: tape' => ((loc + scale * z)%float, tape')
  end.

Definition half_step_repr (x : float) : string :=
  match Prim2SF x with
  | S754_finite false m e =>
      let k := Py.round_half_even m (e + 1) in
      String (ascii_of_nat (48 + Z.to_nat (k / 2)))
        (if Z.even k then ".0" else ".5")
  | _ => ""
  end.

Definition tape_library (tape : list float) : Library := {|
  np_rng := list float;
  np_random_seed := fun _ => tape;
  np_random_normal := tape_normal;
  py_rng := Z;
  random_seed := fun n => n;
  float_repr := half_step_repr
|}.

(** A summary of a frame by a key column: every key of the frame listed
    once, with the arithmetic mean of its ratings and the label of that
    mean, the means descending. *)
Definition summary_of (key : rating_record -> string) (label : float -> string)
    (df : DataFrame) (lines : list (string * float * string)) : Prop :=
  Permutation (map (fun l => fst (fst l)) lines) (sorted_unique (map key df))
  /\ Forall (fun l => snd (fst l) = exact_mean (group_values key (fst (fst l)) df)
                      /\ snd l = label (snd (fst l))) lines
  /\ StronglySorted (fun a b => PrimFloat.leb (snd (fst b)) (snd (fst a)) = true) lines.

(** The rating invariant of the data model. *)
Definition valid_rating (r : float) : Prop :=
  in_rating_range r = true /\ multiple_of_half r = true.

(** A frame in which two of the four pairs of its people and products are
    missing. *)
Definition sparse_frame : DataFrame :=
  [mkRating "Alice" "Laptop Pro" 4.5; mkRating "Bob" "Tablet Mini" 3].

(** A frame that rates every pair of two people and two products once. *)
Definition full_frame : DataFrame :=
  [mkRating "Bob" "Tablet Mini" 3; mkRating "Alice" "Laptop Pro" 4.5;
   mkRating "Bob" "Laptop Pro" 5; mkRating "Alice" "Tablet Mini" 2.5].

(** A tape to replay and the state of a fresh process on it. *)
Definition sample_tape : list float := [1.0; -2.0; 0.5; 3.0; -7.0; 0.1; 0.2]%float.

Definition fresh_state : @state (tape_library sample_tape) :=
  @mkState (tape_library sample_tape) [] 0 [] [].

(** Checks by evaluation that totals of half-step values are formed
    exactly: one accumulation step from the total [j] with the value [k]
    halves leaves the total [j + k] and no compensation. *)
Definition kahan_step_exact (j k : Z) : bool :=
  let a := of_halves j in
  let v := of_halves k in
  let y := (v - 0)%float in
  let t := (a + y)%float in
  let c := (t - a - y)%float in
  negb (is_nan v) && Leibniz.eqb t (of_halves (j + k))
  && Leibniz.eqb (if is_nan c then 0%float else c) 0.

Definition total_exact (j : Z) : bool :=
  (halves (of_halves j) =? j) && SF_is_finite (Prim2SF (of_halves j))
  && forallb (kahan_step_exact j) [2; 3; 4; 5; 6; 7; 8; 9; 10].

(** The [n] integers from [k] on, and those from 0 on. *)
Fixpoint Z_upto (n : nat) (k : Z) : list Z :=
  match n with
  | O => []
  | S n' => k :: Z_upto n' (k + 1)
  end.

Definition Z_range (n : Z) : list Z := Z_upto (Z.to_nat n) 0.

(** [b] is within one quarter of [a], and exactly one quarter away from it,
    as exact values. *)
Definition within_quarter (a b : float) : Prop :=
  QArith_base.Qle (QArith_base.Qminus (float_Q a) (QArith_base.Qmake 1 4)) (float_Q b)
  /\ QArith_base.Qle (float_Q b) (QArith_base.Qplus (float_Q a) (QArith_base.Qmake 1 4)).

Definition quarter_away (a b : float) : Prop :=
  QArith_base.Qeq (float_Q b) (QArith_base.Qminus (float_Q a) (QArith_base.Qmake 1 4))
  \/ QArith_base.Qeq (float_Q b) (QArith_base.Qplus (float_Q a) (QArith_base.Qmake 1 4)).

(** Checks by evaluation that the mean of [n] half-step values whose total
    is [total] halves lies in [1.0, 5.0], for every total such values can
    have. *)
Definition mean_bounded (n total : Z) : bool :=
  PrimFloat.leb 1 (of_halves total / float_of_count n)
  && PrimFloat.leb (of_halves total / float_of_count n) 5.

Definition means_bounded (n : Z) : bool :=
  forallb (mean_bounded n) (Z_upto (Z.to_nat (8 * n + 1)) (2 * n)).

(** A listed mean within the scale. *)
Definition mean_in_scale (l : string * float * string) : Prop :=
  PrimFloat.leb 1 (snd (fst l)) = true /\ PrimFloat.leb (snd (fst l)) 5 = true.

(** ** Reading the exported text back *)

(** The pieces of a text between the occurrences of a character: the lines
    of a file for the line feed, the fields of a line for the comma. *)
Fixpoint split_on (c : ascii) (s : string) : list string :=
  match s with
  | EmptyString => [EmptyString]
  | String a s' =>
      if Ascii.eqb a c then EmptyString :: split_on c s'
      else
        match split_on c s' with
        | [] => [String a EmptyString]
        | piece :: pieces => String a piece :: pieces
        end
  end.

Definition digit_value (c : ascii) : option Z :=
  let n := Z.of_nat (nat_of_ascii c) in
  if (48 <=? n) && (n <=? 57) then Some (n - 48) else None.

(** The value of a numeral made of one digit, a point and one digit. *)
Definition decimal_value (s : string) : option QArith_base.Q :=
  match s with
  | String a (String "."%char (String b EmptyString)) =>
      match digit_value a, digit_value b with
      | Some x, Some y => Some (QArith_base.Qmake (10 * x + y) 10)
      | _, _ => None
      end
  | _ => None
  end.

(** The line holds the record and nothing else: split at its commas it is
    the person, the product and a numeral whose value is the rating. *)
Definition row_holds (line : string) (r : rating_record) : Prop :=
  exists numeral q,
    split_on ","%char line = [Person r; Product r; numeral]
    /\ decimal_value numeral = Some q
    /\ QArith_base.Qeq q (float_Q (Rating r)).

(** * Proofs *)

(** * Facts about binary64 *)

Lemma Prim2SF_not_nan (f : float) : is_nan f = false -> Prim2SF f <> S754_nan.
Proof.
  intros H. unfold Prim2SF. rewrite H.
  destruct (is_zero f); [discriminate|].
  destruct (is_infinity f); [discriminate|].
  destruct (Z.frexp f) as [r ex].
  destruct (shr_fexp prec emax _ _ _) as [s e'].
  destruct (shr_m s); discriminate.
Qed.

Lemma Prim2SF_nan (f : float) : is_nan f = true -> Prim2SF f = S754_nan.
Proof. intros H. unfold Prim2SF. now rewrite H. Qed.

Lemma digits2_pos_bounds (p : positive) :
  2 ^ (Zpos (digits2_pos p) - 1) <= Zpos p < 2 ^ Zpos (digits2_pos p).
Proof.
  induction p as [p IH | p IH |]; cbn [digits2_pos]; [| |cbn; lia].
  all: rewrite Pos2Z.inj_succ;
    replace (Z.succ (Zpos (digits2_pos p)) - 1) with (Zpos (digits2_pos p)) by lia;
    rewrite Z.pow_succ_r by lia;
    assert (E : 2 ^ Zpos (digits2_pos p) = 2 * 2 ^ (Zpos (digits2_pos p) - 1))
      by (rewrite <- Z.pow_succ_r by lia; f_equal; lia);
    lia.
Qed.

(** A valid binary64 mantissa has at most 53 bits, and exactly 53 above the
    smallest exponent. *)
Lemma bounded_inv (m : positive) (e : Z) :
  bounded prec emax m e = true ->
  -1074 <= e <= 971 /\ Zpos (digits2_pos m) <= 53 /\
  (-1074 < e -> Zpos (digits2_pos m) = 53).
Proof.
  unfold bounded, canonical_mantissa, fexp, SpecFloat.emin, prec, emax.
  intros H. apply andb_prop in H as [H1 H2].
  apply Z.eqb_eq in H1. apply Z.leb_le in H2. lia.
Qed.

Lemma SFmul_two (m : positive) (e : Z) :
  digits2_pos m = 53%positive -> e = -52 \/ e = -51 \/ e = -50 ->
  SF64mul (S754_finite false m e) (S754_finite false 4503599627370496 (-51))
  = S754_finite false m (e + 1).
Proof.
  intros Hd He. unfold SF64mul, SFmul. rewrite Pos.mul_comm.
  cbn [Pos.mul xorb].
  unfold binary_round_aux.
  match goal with |- context [shr_fexp ?p ?em ?z ?ee loc_Exact] =>
    assert (E : shr_fexp p em z ee loc_Exact
                = ({| shr_m := Zpos m; shr_r := false; shr_s := false |}, e + 1)) end.
  { unfold shr_fexp, Zdigits2. cbn [digits2_pos]. rewrite Hd.
    destruct He as [-> | [-> | ->]]; reflexivity. }
  rewrite E. cbn [shr_m loc_of_shr_record round_nearest_even].
  unfold shr_fexp, Zdigits2. rewrite Hd.
  destruct He as [-> | [-> | ->]]; reflexivity.
Qed.

Lemma Some_compare_Lt (a b : Z) : Some (a ?= b) = Some Lt -> a < b.
Proof. intros H. injection H as H. now apply Z.compare_lt_iff. Qed.

Lemma Some_compare_Gt (a b : Z) : Some (a ?= b) = Some Gt -> b < a.
Proof. intros H. injection H as H. now apply Z.compare_gt_iff. Qed.

(** A float strictly between the integers 1 and 5 is a positive normal
    number with exponent -52, -51 or -50. *)
Lemma between_1_5 (x : spec_float) :
  valid_binary x = true ->
  Py.SFcompare_Z x 5 = Some Lt -> Py.SFcompare_Z x 1 = Some Gt ->
  exists m e, x = S754_finite false m e /\ digits2_pos m = 53%positive /\
              (e = -52 \/ e = -51 \/ e = -50) /\
              2 ^ (- e) < Zpos m < 5 * 2 ^ (- e).
Proof.
  intros Hv H5 H1. destruct x as [s | s | | s m e]; cbn [Py.SFcompare_Z] in H5, H1.
  - discriminate.
  - destruct s; discriminate.
  - discriminate.
  - cbn in Hv. apply bounded_inv in Hv as (He & Hd & Hn).
    pose proof (digits2_pos_bounds m) as Hm.
    destruct (0 <=? e) eqn:E;
      [apply Z.leb_le in E | apply Z.leb_gt in E];
      apply Some_compare_Lt in H5; apply Some_compare_Gt in H1.
    { exfalso. assert (1 <= 2 ^ e) by (apply (Z.pow_le_mono_r 2 0 e); lia).
      destruct s; cbn [cond_Zopp] in *; [nia|].
      rewrite Hn in Hm by lia.
      change (2 ^ (53 - 1)) with 4503599627370496 in Hm. nia. }
    assert (0 < 2 ^ (- e)) by (apply Z.pow_pos_nonneg; lia).
    destruct s; cbn [cond_Zopp] in *; [exfalso; lia|].
    assert (Hlo : -53 < e).
    { destruct (Z_lt_le_dec (-53) e) as [|Hle]; [assumption|exfalso].
      assert (2 ^ 53 <= 2 ^ (- e)) by (apply Z.pow_le_mono_r; lia).
      assert (2 ^ Zpos (digits2_pos m) <= 2 ^ 53) by (apply Z.pow_le_mono_r; lia).
      lia. }
    rewrite Hn in Hm by lia.
    assert (Hhi : e <= -50).
    { destruct (Z_le_gt_dec e (-50)) as [|Hgt]; [assumption|exfalso].
      assert (2 ^ (- e) <= 2 ^ 49) by (apply Z.pow_le_mono_r; lia).
      change (2 ^ (53 - 1)) with 4503599627370496 in Hm.
      change (2 ^ 49) with 562949953421312 in *. lia. }
    exists m, e. repeat split; lia.
Qed.

Lemma float_of_int_2 : Py.float_of_int 2 = Ok 2%float.
Proof. reflexivity. Qed.

Lemma Prim2SF_2 : Prim2SF 2 = S754_finite false 4503599627370496 (-51).
Proof. reflexivity. Qed.

Lemma truediv_scale (k : Z) :
  2 <= k <= 10 -> exists r, Py.truediv (Py.Int k) (Py.Int 2) = Ok r /\ In r rating_scale.
Proof.
  intros H.
  assert (C : k = 2 \/ k = 3 \/ k = 4 \/ k = 5 \/ k = 6 \/ k = 7 \/ k = 8 \/ k = 9 \/ k = 10)
    by lia.
  unfold rating_scale.
  repeat (destruct C as [-> | C]); [..|subst k];
    (eexists; split; [vm_compute; reflexivity | cbn; tauto]).
Qed.

Lemma round_half_even_bounds (m : positive) (e : Z) :
  e = -52 \/ e = -51 \/ e = -50 ->
  2 ^ (- e) < Zpos m < 5 * 2 ^ (- e) ->
  2 <= Py.round_half_even m (e + 1) <= 10.
Proof.
  intros He Hm. unfold Py.round_half_even.
  assert (E : (0 <=? e + 1) = false) by (apply Z.leb_gt; lia). rewrite E.
  assert (Hd : 2 * 2 ^ (- (e + 1)) = 2 ^ (- e) /\ 0 < 2 ^ (- (e + 1))).
  { destruct He as [-> | [-> | ->]]; split; reflexivity. }
  destruct Hd as [Hd Hpos].
  set (d := 2 ^ (- (e + 1))) in *.
  pose proof (Z.div_mod (Zpos m) d ltac:(lia)) as Hdm.
  pose proof (Z.mod_pos_bound (Zpos m) d Hpos) as Hr.
  set (q := Zpos m / d) in *. set (r := Zpos m mod d) in *.
  assert (2 <= q <= 9) by nia.
  destruct (2 * r ?= d); [destruct (Z.even q)| |]; lia.
Qed.

Lemma clamp_cases (raw : float) :
  clamp (Py.Float raw) = Py.Int 1 \/ clamp (Py.Float raw) = Py.Int 5 \/
  (clamp (Py.Float raw) = Py.Float raw /\
   Py.SFcompare_Z (Prim2SF raw) 5 = Some Lt /\
   Py.SFcompare_Z (Prim2SF raw) 1 = Some Gt).
Proof.
  unfold clamp, Py.min, Py.max. cbn [Py.lt].
  destruct (Py.SFcompare_Z (Prim2SF raw) 5) as [[| |]|] eqn:H5; cbn [Py.gt];
    try (right; left; reflexivity).
  destruct (Py.SFcompare_Z (Prim2SF raw) 1) as [[| |]|] eqn:H1;
    try (left; reflexivity).
  right; right. auto.
Qed.

Lemma quantize_int (k : Z) :
  quantize (Py.Int k) = Py.truediv (Py.Int (k * 2)) (Py.Int 2).
Proof. reflexivity. Qed.

Lemma quantize_between (raw : float) :
  Py.SFcompare_Z (Prim2SF raw) 5 = Some Lt ->
  Py.SFcompare_Z (Prim2SF raw) 1 = Some Gt ->
  exists k, 2 <= k <= 10 /\ quantize (Py.Float raw) = Py.truediv (Py.Int k) (Py.Int 2).
Proof.
  intros H5 H1.
  destruct (between_1_5 _ (Prim2SF_valid raw) H5 H1) as (m & e & Hx & Hd & He & Hm).
  unfold quantize. cbn [Py.mul]. rewrite float_of_int_2. cbn [rbind Py.round].
  rewrite mul_spec, Hx, Prim2SF_2, (SFmul_two m e Hd He). cbn [cond_Zopp].
  eexists. split; [|reflexivity]. now apply round_half_even_bounds.
Qed.

Lemma compute_rating_scale (base_score bias noise : float) :
  exists r, compute_rating base_score bias noise = Ok r /\ In r rating_scale.
Proof.
  unfold compute_rating.
  destruct (clamp_cases (base_score + bias + noise)%float) as [-> | [-> | (-> & H5 & H1)]].
  - rewrite quantize_int. apply truediv_scale. lia.
  - rewrite quantize_int. apply truediv_scale. lia.
  - destruct (quantize_between _ H5 H1) as (k & Hk & ->). now apply truediv_scale.
Qed.

(** * Order on binary64 *)

Lemma SFcompare_antisym (x y : spec_float) :
  SFcompare y x = option_map CompOpp (SFcompare x y).
Proof.
  destruct x as [sx | sx | | sx mx ex], y as [sy | sy | | sy my ey];
    cbn [SFcompare option_map]; try reflexivity;
    try (destruct sx; reflexivity); try (destruct sy; reflexivity);
    try (destruct sx, sy; reflexivity).
  destruct sx, sy; cbn [CompOpp]; try reflexivity;
    rewrite (Z.compare_antisym ex ey);
    destruct (ex ?= ey); cbn [CompOpp]; try reflexivity;
    rewrite (Pos.compare_cont_antisym mx my Eq); cbn [CompOpp];
    reflexivity.
Qed.

Lemma SFcompare_Eq_inv (x : spec_float) (m : positive) (e : Z) :
  SFcompare x (S754_finite false m e) = Some Eq -> x = S754_finite false m e.
Proof.
  destruct x as [s | s | | s mx ex]; cbn [SFcompare]; try discriminate.
  - destruct s; discriminate.
  - destruct s; [discriminate|].
    destruct (ex ?= e) eqn:E; try discriminate.
    intros H. injection H as H.
    apply Z.compare_eq in E. apply Pos.compare_eq in H. congruence.
Qed.

(** Against a positive integer constant held exactly in a normal float, the
    comparison of floats is the exact comparison of values. *)
Lemma SFcompare_const (z : Z) (mc : positive) (ec : Z) (x : spec_float) :
  0 < z -> -1074 < ec < 0 -> Zpos (digits2_pos mc) = 53 ->
  Zpos mc = z * 2 ^ (- ec) ->
  valid_binary x = true ->
  SFcompare x (S754_finite false mc ec) = Py.SFcompare_Z x z.
Proof.
  intros Hz Hec Hdc Hmc Hv.
  pose proof (digits2_pos_bounds mc) as Bc. rewrite Hdc in Bc.
  change (2 ^ (53 - 1)) with 4503599627370496 in Bc.
  change (2 ^ 53) with 9007199254740992 in Bc.
  assert (Pc : 0 < 2 ^ (- ec)) by (apply Z.pow_pos_nonneg; lia).
  destruct x as [s | s | | s m e]; cbn [SFcompare Py.SFcompare_Z]; try reflexivity.
  - f_equal. symmetry. now apply Z.compare_lt_iff.
  - cbn in Hv. apply bounded_inv in Hv as (He & Hd & Hn).
    pose proof (digits2_pos_bounds m) as B.
    f_equal. destruct s; cbn [cond_Zopp].
    + symmetry. destruct (0 <=? e) eqn:E;
        [apply Z.leb_le in E | apply Z.leb_gt in E]; apply Z.compare_lt_iff.
      * assert (0 < 2 ^ e) by (apply Z.pow_pos_nonneg; lia). nia.
      * assert (0 < 2 ^ (- e)) by (apply Z.pow_pos_nonneg; lia). nia.
    + destruct (Z.compare_spec e ec) as [Heq | Hlt | Hgt].
      * subst e. assert (E : (0 <=? ec) = false) by (apply Z.leb_gt; lia).
        rewrite E, <- Hmc. reflexivity.
      * assert (E : (0 <=? e) = false) by (apply Z.leb_gt; lia). rewrite E.
        symmetry. apply Z.compare_lt_iff.
        assert (Hp : 2 ^ (- e) = 2 ^ (- ec) * 2 ^ (ec - e))
          by (rewrite <- Z.pow_add_r by lia; f_equal; lia).
        assert (2 <= 2 ^ (ec - e)) by (apply (Z.pow_le_mono_r 2 1); lia).
        assert (Zpos m < 9007199254740992).
        { assert (2 ^ Zpos (digits2_pos m) <= 2 ^ 53) by (apply Z.pow_le_mono_r; lia).
          change (2 ^ 53) with 9007199254740992 in *. lia. }
        rewrite Hp. nia.
      * rewrite Hn in B by lia.
        change (2 ^ (53 - 1)) with 4503599627370496 in B.
        symmetry. destruct (0 <=? e) eqn:E;
          [apply Z.leb_le in E | apply Z.leb_gt in E]; apply Z.compare_gt_iff.
        -- assert (1 <= 2 ^ e) by (apply (Z.pow_le_mono_r 2 0); lia).
           assert (2 <= 2 ^ (- ec)) by (apply (Z.pow_le_mono_r 2 1); lia).
           nia.
        -- assert (Hp : 2 ^ (- ec) = 2 ^ (- e) * 2 ^ (e - ec))
             by (rewrite <- Z.pow_add_r by lia; f_equal; lia).
           assert (2 <= 2 ^ (e - ec)) by (apply (Z.pow_le_mono_r 2 1); lia).
           assert (0 < 2 ^ (- e)) by (apply Z.pow_pos_nonneg; lia).
           nia.
Qed.

Lemma Prim2SF_1 : Prim2SF 1 = S754_finite false 4503599627370496 (-52).
Proof. reflexivity. Qed.

Lemma Prim2SF_5 : Prim2SF 5 = S754_finite false 5629499534213120 (-50).
Proof. reflexivity. Qed.

Lemma SFcompare_1 (f : float) :
  SFcompare (Prim2SF f) (Prim2SF 1) = Py.SFcompare_Z (Prim2SF f) 1.
Proof.
  rewrite Prim2SF_1. apply SFcompare_const; try reflexivity; try lia.
  apply Prim2SF_valid.
Qed.

Lemma SFcompare_5 (f : float) :
  SFcompare (Prim2SF f) (Prim2SF 5) = Py.SFcompare_Z (Prim2SF f) 5.
Proof.
  rewrite Prim2SF_5. apply SFcompare_const; try reflexivity; try lia.
  apply Prim2SF_valid.
Qed.

(** * Addition never invents a NaN *)

Lemma shr_1_nonneg (mrs : shr_record) : 0 <= shr_m mrs -> 0 <= shr_m (shr_1 mrs).
Proof.
  destruct mrs as [m r s]. cbn [shr_m]. intros H. unfold shr_1.
  destruct m as [|[p|p|]|p]; cbn [shr_m]; lia.
Qed.

Lemma iter_pos_invariant {A : Type} (P : A -> Prop) (f : A -> A) :
  (forall x, P x -> P (f x)) -> forall p x, P x -> P (iter_pos f p x).
Proof.
  intros Hf. induction p as [p IH | p IH |]; intros x Hx; cbn [iter_pos]; auto.
Qed.

Lemma shr_fexp_nonneg (m e : Z) (l : location) :
  0 <= m -> 0 <= shr_m (fst (shr_fexp prec emax m e l)).
Proof.
  intros Hm. unfold shr_fexp, shr.
  assert (H0 : 0 <= shr_m (shr_record_of_loc m l)) by (destruct l as [|[| |]]; exact Hm).
  destruct (fexp prec emax (Zdigits2 m + e) - e); cbn [fst]; try exact H0.
  now apply (iter_pos_invariant (fun mrs => 0 <= shr_m mrs) shr_1 shr_1_nonneg).
Qed.

Lemma binary_round_aux_not_nan (s : bool) (m e : Z) (l : location) :
  0 <= m -> binary_round_aux prec emax s m e l <> S754_nan.
Proof.
  intros Hm. unfold binary_round_aux.
  pose proof (shr_fexp_nonneg m e l Hm) as H1.
  destruct (shr_fexp prec emax m e l) as [mrs' e']. cbn [fst] in H1.
  assert (H2 : 0 <= round_nearest_even (shr_m mrs') (loc_of_shr_record mrs')).
  { unfold round_nearest_even.
    destruct (loc_of_shr_record mrs') as [|[| |]]; try lia.
    destruct (Z.even (shr_m mrs')); lia. }
  pose proof (shr_fexp_nonneg _ e' loc_Exact H2) as H3.
  destruct (shr_fexp prec emax _ e' loc_Exact) as [mrs'' e'']. cbn [fst] in H3.
  destruct (shr_m mrs''); try discriminate; [|lia].
  destruct (e'' <=? emax - prec); discriminate.
Qed.

Lemma binary_normalize_not_nan (m e : Z) (sz : bool) :
  binary_normalize prec emax m e sz <> S754_nan.
Proof.
  unfold binary_normalize, binary_round.
  destruct m; try discriminate.
  all: destruct (shl_align _ _ _) as [mz ez]; apply binary_round_aux_not_nan; lia.
Qed.

Lemma SFadd_not_nan (x y : spec_float) :
  SF_is_finite x = true -> y <> S754_nan -> SF64add x y <> S754_nan.
Proof.
  intros Hx Hy. unfold SF64add, SFadd.
  destruct x as [sx | sx | | sx mx ex]; try discriminate;
    destruct y as [sy | sy | | sy my ey]; try congruence; try discriminate.
  - destruct sx, sy; discriminate.
  - apply binary_normalize_not_nan.
Qed.

Lemma add_not_nan (c noise : float) :
  SF_is_finite (Prim2SF c) = true -> is_nan noise = false ->
  Prim2SF (c + noise) <> S754_nan.
Proof.
  intros Hc Hn. rewrite add_spec. apply SFadd_not_nan; [assumption|].
  now apply Prim2SF_not_nan.
Qed.

(** * Exact comparisons with the ends of the scale *)

Lemma ltb_1_exact (f : float) :
  PrimFloat.ltb f 1 = match Py.SFcompare_Z (Prim2SF f) 1 with Some Lt => true | _ => false end.
Proof. rewrite ltb_spec. unfold SFltb. now rewrite SFcompare_1. Qed.

Lemma ltb_5_exact (f : float) :
  PrimFloat.ltb 5 f = match Py.SFcompare_Z (Prim2SF f) 5 with Some Gt => true | _ => false end.
Proof.
  rewrite ltb_spec. unfold SFltb.
  rewrite (SFcompare_antisym (Prim2SF f) (Prim2SF 5)), SFcompare_5.
  destruct (Py.SFcompare_Z (Prim2SF f) 5) as [[| |]|]; reflexivity.
Qed.

Lemma SFcompare_Z_Eq_1 (f : float) :
  Py.SFcompare_Z (Prim2SF f) 1 = Some Eq -> f = 1%float.
Proof.
  rewrite <- SFcompare_1, Prim2SF_1. intros H. apply SFcompare_Eq_inv in H.
  apply Prim2SF_inj. now rewrite Prim2SF_1.
Qed.

Lemma SFcompare_Z_Eq_5 (f : float) :
  Py.SFcompare_Z (Prim2SF f) 5 = Some Eq -> f = 5%float.
Proof.
  rewrite <- SFcompare_5, Prim2SF_5. intros H. apply SFcompare_Eq_inv in H.
  apply Prim2SF_inj. now rewrite Prim2SF_5.
Qed.

Lemma SFcompare_Z_mono (x : spec_float) (a b : Z) :
  a <= b -> Py.SFcompare_Z x a = Some Lt -> Py.SFcompare_Z x b = Some Lt.
Proof.
  intros Hab. destruct x as [s | s | | s m e]; cbn [Py.SFcompare_Z]; try congruence.
  - intros H. apply Some_compare_Lt in H. f_equal. apply Z.compare_lt_iff. lia.
  - destruct (0 <=? e) eqn:E; intros H; apply Some_compare_Lt in H; f_equal;
      apply Z.compare_lt_iff; [lia|].
    apply Z.leb_gt in E.
    assert (0 < 2 ^ (- e)) by (apply Z.pow_pos_nonneg; lia). nia.
Qed.

Lemma SFcompare_Z_some (x : spec_float) (z : Z) :
  x <> S754_nan -> exists c, Py.SFcompare_Z x z = Some c.
Proof. destruct x; cbn [Py.SFcompare_Z]; try congruence; eauto. Qed.

Lemma truediv_halves (k : Z) :
  2 <= k <= 10 ->
  Py.truediv (Py.Int k) (Py.Int 2) = Ok (float_of_count k / 2)%float.
Proof.
  intros H.
  assert (C : k = 2 \/ k = 3 \/ k = 4 \/ k = 5 \/ k = 6 \/ k = 7 \/ k = 8 \/ k = 9 \/ k = 10)
    by lia.
  repeat (destruct C as [-> | C]); [..|subst k]; vm_compute; reflexivity.
Qed.

(** * The generation loop *)

Lemma dict_get_In (d : dict) (k : string) (v : float) :
  dict_get d k = Ok v -> In (k, v) d.
Proof.
  induction d as [|[k' v'] d IH]; cbn [dict_get]; [discriminate|].
  destruct (dict_get d k) as [v''|e] eqn:E.
  - intros H. injection H as ->. right. now apply IH.
  - destruct (String.eqb_spec k k') as [->|]; [|discriminate].
    intros H. injection H as ->. now left.
Qed.

Lemma generated_app f pbs pb pairs1 draws1 records1 pairs2 draws2 records2 :
  generated f pbs pb pairs1 draws1 records1 ->
  generated f pbs pb pairs2 draws2 records2 ->
  generated f pbs pb (pairs1 ++ pairs2) (draws1 ++ draws2) (records1 ++ records2).
Proof.
  intros Hgen1 Hgen2. induction Hgen1; cbn [app]; [assumption|].
  econstructor; eauto.
Qed.

Lemma generated_pairs f pbs pb pairs draws records :
  generated f pbs pb pairs draws records -> map pair_of records = pairs.
Proof.
  intros Hgen. induction Hgen as [|? ? ? ? ? ? ? ? ? _ _ _ _ IH]; [reflexivity|].
  cbn [map]. now rewrite IH.
Qed.

Lemma generated_length f pbs pb pairs draws records :
  generated f pbs pb pairs draws records -> List.length records = List.length pairs.
Proof. intros H. rewrite <- (generated_pairs _ _ _ _ _ _ H). now rewrite length_map. Qed.

Lemma generated_functional f pbs pb pairs draws records1 records2 :
  generated f pbs pb pairs draws records1 ->
  generated f pbs pb pairs draws records2 -> records1 = records2.
Proof.
  intros Hgen1. revert records2.
  induction Hgen1 as [|? ? ? ? ? ? ? ? ? Hb Hp Hr ? IH]; intros records2 Hgen2;
    inversion Hgen2; subst.
  - reflexivity.
  - f_equal; [|now apply IH]. congruence.
Qed.

Lemma generated_Forall (P : float -> Prop) f pbs pb pairs draws records :
  (forall base_score bias noise rating, f base_score bias noise = Ok rating -> P rating) ->
  generated f pbs pb pairs draws records -> Forall (fun r => P (Rating r)) records.
Proof. intros Hf Hgen. induction Hgen; constructor; eauto. Qed.

Section GenerateFacts.

Context {L : Library}.

Lemma np_draws_length (n : nat) (g : np_rng) : List.length (fst (np_draws n g)) = n.
Proof. revert g. induction n as [|n IH]; intros g; cbn; [reflexivity|]. now rewrite IH. Qed.

Lemma np_draws_add (a b : nat) (g : np_rng) :
  np_draws (a + b) g
  = (fst (np_draws a g) ++ fst (np_draws b (snd (np_draws a g))),
     snd (np_draws b (snd (np_draws a g)))).
Proof.
  revert g. induction a as [|a IH]; intros g; cbn [Nat.add np_draws fst snd app].
  - now destruct (np_draws b g).
  - now rewrite IH.
Qed.

Lemma rate_run pbs pb person product base_score bias (st : state) :
  dict_get pbs product = Ok base_score ->
  dict_get pb person = Ok bias ->
  exists rating,
    compute_rating base_score bias (fst (np_random_normal 0 0.3 (np_state st))) = Ok rating /\
    rate pbs pb person product st
    = Ok (tt, mkState (snd (np_random_normal 0 0.3 (np_state st))) (py_state st)
                      (ratings_data st ++ [mkRating person product rating]) (files st)).
Proof.
  intros Hb Hp. unfold rate, bind, lift, np_normal, append_rating, modify.
  rewrite Hb, Hp.
  destruct (np_random_normal 0 0.3 (np_state st)) as [x g]. cbn [fst snd].
  destruct (compute_rating_scale base_score bias x) as (r & Hr & _).
  exists r. rewrite Hr. cbn. auto.
Qed.

Lemma inner_loop_run pbs pb person bias (products : list string) :
  dict_get pb person = Ok bias ->
  Forall (fun product => exists b, dict_get pbs product = Ok b) products ->
  forall st : state,
  exists records,
    generated compute_rating pbs pb (map (pair person) products)
              (fst (np_draws (List.length products) (np_state st))) records /\
    for_each products (fun product => rate pbs pb person product) st
    = Ok (tt, mkState (snd (np_draws (List.length products) (np_state st)))
                      (py_state st) (ratings_data st ++ records) (files st)).
Proof.
  intros Hp Hall. induction Hall as [|product products [b Hb] _ IH]; intros st.
  - exists []. split; [constructor|]. cbn. rewrite app_nil_r. now destruct st.
  - destruct (rate_run pbs pb person product b bias st Hb Hp) as (r & Hr & Hrun).
    cbn [for_each]. unfold bind at 1. rewrite Hrun.
    destruct (IH (mkState (snd (np_random_normal 0 0.3 (np_state st))) (py_state st)
                          (ratings_data st ++ [mkRating person product r]) (files st)))
      as (records & Hgen & Hloop).
    cbn [np_state py_state ratings_data files] in Hgen, Hloop.
    exists (mkRating person product r :: records). split.
    + cbn [map List.length np_draws fst snd]. econstructor; eauto.
    + rewrite Hloop. cbn [List.length np_draws fst snd].
      now rewrite <- app_assoc.
Qed.

Lemma generate_run (people products : list string) pbs pb :
  Forall (fun person => exists b, dict_get pb person = Ok b) people ->
  Forall (fun product => exists b, dict_get pbs product = Ok b) products ->
  forall st : state,
  exists records,
    generated compute_rating pbs pb (list_prod people products)
              (fst (np_draws (List.length people * List.length products) (np_state st)))
              records /\
    generate people products pbs pb st
    = Ok (tt, mkState (snd (np_draws (List.length people * List.length products)
                                     (np_state st)))
                      (py_state st) (ratings_data st ++ records) (files st)).
Proof.
  intros Hpeople Hproducts. unfold generate.
  induction Hpeople as [|person people [bias Hp] _ IH]; intros st.
  - exists []. split; [constructor|]. cbn. rewrite app_nil_r. now destruct st.
  - destruct (inner_loop_run pbs pb person bias products Hp Hproducts st)
      as (records1 & Hgen1 & Hrun1).
    cbn [for_each]. unfold bind at 1. rewrite Hrun1.
    match goal with |- context [for_each people ?body ?s] =>
      destruct (IH s) as (records2 & Hgen2 & Hrun2) end.
    cbn [np_state py_state ratings_data files] in Hgen2, Hrun2.
    exists (records1 ++ records2). split.
    + cbn [List.length Nat.mul list_prod]. rewrite np_draws_add. cbn [fst].
      now apply generated_app.
    + rewrite Hrun2. cbn [List.length Nat.mul]. rewrite np_draws_add. cbn [snd].
      now rewrite <- app_assoc.
Qed.

End GenerateFacts.

(** * Insertion sort *)

Section InsertionSortFacts.

Context {A : Type} (lt : A -> A -> bool).

Lemma insert_Permutation (x : A) (l : list A) : Permutation (insert lt x l) (x :: l).
Proof.
  induction l as [|y l IH]; cbn [insert]; [reflexivity|].
  destruct (lt x y); [reflexivity|].
  rewrite IH. apply perm_swap.
Qed.

Lemma fold_insert_Permutation (l acc : list A) :
  Permutation (fold_left (fun sorted x => insert lt x sorted) l acc) (l ++ acc).
Proof.
  revert acc. induction l as [|x l IH]; intros acc; cbn [fold_left app]; [reflexivity|].
  rewrite IH, insert_Permutation. symmetry. apply Permutation_middle.
Qed.

Lemma insertion_sort_Permutation (l : list A) : Permutation (insertion_sort lt l) l.
Proof. unfold insertion_sort. rewrite fold_insert_Permutation. now rewrite app_nil_r. Qed.

(** Sortedness, for the elements of a class [P] on which [le] is the
    total order that [lt] decides. *)
Variable P : A -> Prop.
Variable le : A -> A -> Prop.
Hypothesis lt_le : forall a b, P a -> P b -> lt a b = true -> le a b.
Hypothesis not_lt_le : forall a b, P a -> P b -> lt a b = false -> le b a.

Lemma insert_HdRel (a x : A) (l : list A) :
  P a -> P x -> Forall P l -> le a x -> HdRel le a l -> HdRel le a (insert lt x l).
Proof.
  intros Pa Px Pl Hax Hl. destruct l as [|y l]; cbn [insert]; [now constructor|].
  destruct (lt x y); constructor; [assumption|]. now inversion Hl.
Qed.

Lemma insert_Sorted (x : A) (l : list A) :
  P x -> Forall P l -> Sorted le l -> Sorted le (insert lt x l).
Proof.
  intros Px Pl Hs. induction l as [|y l IH]; cbn [insert].
  - repeat constructor.
  - inversion Pl as [|? ? Py Pl']; subst. inversion Hs as [|? ? Hs' Hhd]; subst.
    destruct (lt x y) eqn:E.
    + constructor; [assumption|]. constructor. now apply lt_le.
    + constructor; [now apply IH|].
      apply insert_HdRel; auto.
Qed.

Lemma insert_Forall (x : A) (l : list A) : P x -> Forall P l -> Forall P (insert lt x l).
Proof.
  intros Px Pl. eapply Permutation_Forall; [symmetry; apply insert_Permutation|].
  now constructor.
Qed.

Lemma fold_insert_Sorted (l acc : list A) :
  Forall P l -> Forall P acc -> Sorted le acc ->
  Sorted le (fold_left (fun sorted x => insert lt x sorted) l acc).
Proof.
  revert acc. induction l as [|x l IH]; intros acc Pl Pacc Hs; cbn [fold_left];
    [assumption|].
  inversion Pl; subst. apply IH; auto using insert_Forall, insert_Sorted.
Qed.

Lemma insertion_sort_Sorted (l : list A) : Forall P l -> Sorted le (insertion_sort lt l).
Proof. intros Pl. apply fold_insert_Sorted; auto. Qed.

End InsertionSortFacts.

(** * Strong sortedness of appended and reversed lists *)

Lemma StronglySorted_app {A : Type} (R : A -> A -> Prop) (l1 l2 : list A) :
  StronglySorted R l1 -> StronglySorted R l2 ->
  (forall a b, In a l1 -> In b l2 -> R a b) ->
  StronglySorted R (l1 ++ l2).
Proof.
  intros H1 H2 H12. induction H1 as [|a l1 H1 IH Ha]; cbn [app]; [assumption|].
  constructor.
  - apply IH. intros; apply H12; auto. now right.
  - apply Forall_app. split; [assumption|].
    apply Forall_forall. intros b Hb. apply H12; auto. now left.
Qed.

Lemma StronglySorted_rev {A : Type} (R : A -> A -> Prop) (l : list A) :
  StronglySorted R l -> StronglySorted (fun a b => R b a) (rev l).
Proof.
  induction 1 as [|a l Hs IH Ha]; cbn [rev]; [constructor|].
  apply StronglySorted_app; [assumption|repeat constructor|].
  intros x y Hx [<-|[]]. rewrite Forall_forall in Ha. apply Ha. now apply in_rev.
Qed.

Lemma StronglySorted_impl {A : Type} (R R' : A -> A -> Prop) (l : list A) :
  (forall a b, R a b -> R' a b) -> StronglySorted R l -> StronglySorted R' l.
Proof.
  intros HR. induction 1 as [|a l Hs IH Ha]; constructor; [assumption|].
  eapply Forall_impl; [|exact Ha]. auto.
Qed.

Lemma StronglySorted_map {A B : Type} (R : B -> B -> Prop) (f : A -> B) (l : list A) :
  StronglySorted (fun a b => R (f a) (f b)) l -> StronglySorted R (map f l).
Proof.
  induction 1 as [|a l Hs IH Ha]; cbn [map]; constructor; [assumption|].
  apply Forall_map. exact Ha.
Qed.

(** * Group keys *)

Lemma sorted_unique_In (l : list string) (x : string) : In x (sorted_unique l) <-> In x l.
Proof.
  unfold sorted_unique. rewrite <- (nodup_In string_dec l x). split; intros H.
  - eapply Permutation_in; [apply insertion_sort_Permutation|exact H].
  - eapply Permutation_in; [symmetry; apply insertion_sort_Permutation|exact H].
Qed.

Lemma sorted_unique_NoDup (l : list string) : NoDup (sorted_unique l).
Proof.
  unfold sorted_unique.
  eapply Permutation_NoDup; [symmetry; apply insertion_sort_Permutation|].
  apply NoDup_nodup.
Qed.

(** * The order of floats is total and transitive away from NaN *)

Lemma SFcompare_some (x y : spec_float) :
  x <> S754_nan -> y <> S754_nan -> exists c, SFcompare x y = Some c.
Proof.
  intros Hx Hy. destruct x, y; try congruence; cbn [SFcompare]; eauto.
Qed.

Lemma SFleb_not_nan (x y : spec_float) :
  SFleb x y = true -> x <> S754_nan /\ y <> S754_nan.
Proof.
  unfold SFleb. destruct x, y; cbn [SFcompare]; try discriminate; split; discriminate.
Qed.

Lemma SFleb_trans (x y z : spec_float) :
  SFleb x y = true -> SFleb y z = true -> SFleb x z = true.
Proof.
  unfold SFleb.
  destruct x as [sx | sx | | sx mx ex], y as [sy | sy | | sy my ey],
    z as [sz | sz | | sz mz ez]; cbn [SFcompare]; try discriminate; try reflexivity;
    try (destruct sx; try discriminate; try reflexivity);
    try (destruct sy; try discriminate; try reflexivity);
    try (destruct sz; try discriminate; try reflexivity).
  all: rewrite ?Pos.compare_cont_spec; cbn [Pos.switch_Eq CompOpp].
  all: destruct (Z.compare_spec ex ey), (Z.compare_spec ey ez), (Z.compare_spec ex ez);
    try discriminate; try reflexivity; try lia.
  all: subst; destruct (Pos.compare_spec mx my), (Pos.compare_spec my mz),
    (Pos.compare_spec mx mz); cbn [CompOpp]; try discriminate; try reflexivity; try lia.
Qed.

Lemma leb_trans (x y z : float) :
  PrimFloat.leb x y = true -> PrimFloat.leb y z = true -> PrimFloat.leb x z = true.
Proof. rewrite !leb_spec. apply SFleb_trans. Qed.

Lemma ltb_leb (x y : float) : PrimFloat.ltb x y = true -> PrimFloat.leb x y = true.
Proof.
  rewrite ltb_spec, leb_spec. unfold SFltb, SFleb.
  destruct (SFcompare _ _) as [[| |]|]; congruence.
Qed.

Lemma not_ltb_leb (x y : float) :
  is_nan x = false -> is_nan y = false ->
  PrimFloat.ltb x y = false -> PrimFloat.leb y x = true.
Proof.
  intros Hx Hy. apply Prim2SF_not_nan in Hx, Hy.
  rewrite ltb_spec, leb_spec. unfold SFltb, SFleb.
  rewrite (SFcompare_antisym (Prim2SF x) (Prim2SF y)).
  destruct (SFcompare_some _ _ Hx Hy) as [c ->]. destruct c; cbn; congruence.
Qed.

Lemma leb_not_nan (x y : float) :
  PrimFloat.leb x y = true -> is_nan x = false /\ is_nan y = false.
Proof.
  rewrite leb_spec. intros H. apply SFleb_not_nan in H as [Hx Hy].
  split.
  - destruct (is_nan x) eqn:E; [|reflexivity]. now apply Prim2SF_nan in E.
  - destruct (is_nan y) eqn:E; [|reflexivity]. now apply Prim2SF_nan in E.
Qed.

(** * sort_values and groupby *)

Lemma filter_split_Permutation {A : Type} (f : A -> bool) (l : list A) :
  Permutation (filter (fun x => negb (f x)) l ++ filter f l) l.
Proof.
  induction l as [|x l IH]; cbn [filter]; [reflexivity|].
  destruct (f x); cbn [negb app].
  - rewrite <- Permutation_middle. now constructor.
  - now constructor.
Qed.

Lemma sort_values_descending_Permutation (s : list (string * float)) :
  Permutation (sort_values_descending s) s.
Proof.
  unfold sort_values_descending.
  rewrite <- Permutation_rev, insertion_sort_Permutation, <- Permutation_rev.
  apply (filter_split_Permutation (fun kv => is_nan (snd kv))).
Qed.

Lemma StronglySorted_all {A : Type} (R : A -> A -> Prop) (Q : A -> Prop) (l : list A) :
  (forall a b, Q b -> R a b) -> Forall Q l -> StronglySorted R l.
Proof.
  intros HR. induction 1 as [|a l Ha Hl IH]; constructor; [assumption|].
  eapply Forall_impl; [|exact Hl]. auto.
Qed.

Lemma sort_values_descending_sorted (s : list (string * float)) :
  StronglySorted (fun a b => descending (snd a) (snd b)) (sort_values_descending s).
Proof.
  unfold sort_values_descending.
  set (non_nans := filter (fun kv => negb (is_nan (snd kv))) s).
  set (nans := filter (fun kv => is_nan (snd kv)) s).
  assert (Hnn : Forall (fun kv : string * float => is_nan (snd kv) = false) (rev non_nans)).
  { apply Forall_rev, Forall_forall. intros kv Hkv.
    apply filter_In in Hkv as [_ Hkv]. now apply negb_true_iff in Hkv. }
  assert (Hn : Forall (fun kv : string * float => is_nan (snd kv) = true) nans).
  { apply Forall_forall. intros kv Hkv. now apply filter_In in Hkv as [_ Hkv]. }
  apply StronglySorted_app.
  - eapply StronglySorted_impl; [|apply StronglySorted_rev, Sorted_StronglySorted].
    + intros a b H. left. exact H.
    + intros a b c. apply leb_trans.
    + apply (insertion_sort_Sorted _ (fun kv => is_nan (snd kv) = false)); [| |exact Hnn].
      * intros a b _ _. apply ltb_leb.
      * intros a b Ha Hb. now apply not_ltb_leb.
  - eapply StronglySorted_all; [|exact Hn]. intros a b Hb. now right.
  - intros a b _ Hb. right. rewrite Forall_forall in Hn. now apply Hn.
Qed.

Lemma fold_accumulate (key : rating_record -> string) (df : DataFrame)
    (accs : list (string * group_acc)) :
  fold_left (fun accs r => accumulate accs (key r) (Rating r)) df accs
  = map (fun ka => (fst ka, fold_left kahan_add (group_values key (fst ka) df) (snd ka)))
        accs.
Proof.
  revert accs. induction df as [|r df IH]; intros accs; cbn [fold_left].
  - unfold group_values. cbn. rewrite <- (map_id accs) at 1.
    apply map_ext. now intros [k a].
  - rewrite IH. unfold accumulate. rewrite map_map. apply map_ext.
    intros [k a]. cbn [fst snd]. unfold group_values. cbn [filter].
    rewrite (String.eqb_sym (key r) k).
    destruct (String.eqb k (key r)); reflexivity.
Qed.

Lemma groupby_mean_spec (key : rating_record -> string) (df : DataFrame) :
  groupby_mean key df
  = map (fun k => (k, series_mean (group_values key k df))) (sorted_unique (map key df)).
Proof.
  unfold groupby_mean. rewrite fold_accumulate, !map_map. reflexivity.
Qed.

(** * pivot *)

Lemma pair_eqb_true (x y : string * string) :
  String.eqb (fst x) (fst y) && String.eqb (snd x) (snd y) = true <-> x = y.
Proof.
  destruct x as [a b], y as [c d]. cbn [fst snd].
  rewrite andb_true_iff, !String.eqb_eq. split; [intros [-> ->]|intros [= -> ->]]; auto.
Qed.

Lemma has_duplicates_false (l : list (string * string)) :
  has_duplicates l = false <-> NoDup l.
Proof.
  induction l as [|x l IH]; cbn [has_duplicates].
  - split; [constructor|reflexivity].
  - rewrite orb_false_iff, IH. split.
    + intros [Hx Hl]. constructor; [|assumption]. intros Hin.
      assert (E : existsb (fun y => String.eqb (fst x) (fst y) && String.eqb (snd x) (snd y)) l
                  = true).
      { apply existsb_exists. exists x. split; [assumption|]. now apply pair_eqb_true. }
      congruence.
    + intros H. inversion H as [|? ? Hx Hl]; subst. split; [|assumption].
      destruct (existsb _ l) eqn:E; [|reflexivity].
      apply existsb_exists in E as (y & Hy & E). apply pair_eqb_true in E. now subst y.
Qed.

Lemma has_duplicates_true (l : list (string * string)) :
  has_duplicates l = true <-> ~ NoDup l.
Proof.
  rewrite <- has_duplicates_false. destruct (has_duplicates l); split; congruence.
Qed.

Lemma combine_map_r {A B : Type} (f : A -> B) (l : list A) :
  combine l (map f l) = map (fun x => (x, f x)) l.
Proof. induction l as [|x l IH]; cbn; [reflexivity|]. now rewrite IH. Qed.

Lemma flatten_pivot (df : DataFrame) (idx cols : list string) :
  flatten (mkPivot idx cols (map (fun p => map (fun q => cell df p q) cols) idx))
  = map (fun pq => mkRating (fst pq) (snd pq) (cell df (fst pq) (snd pq)))
        (list_prod idx cols).
Proof.
  unfold flatten. cbn [index_labels column_labels cells]. rewrite combine_map_r, map_map.
  cbn [fst snd].
  induction idx as [|p idx IH]; cbn [map List.concat list_prod]; [reflexivity|].
  rewrite IH, map_app. f_equal.
  rewrite combine_map_r, !map_map. reflexivity.
Qed.

Lemma cell_found (df : DataFrame) (r : rating_record) :
  NoDup (map pair_of df) -> In r df -> cell df (Person r) (Product r) = Rating r.
Proof.
  intros Hnd Hin. unfold cell.
  induction df as [|r' df IH]; [contradiction|]. cbn [find].
  cbn [map] in Hnd. inversion Hnd as [|? ? Hnotin Hnd']; subst.
  destruct (String.eqb (Person r') (Person r) && String.eqb (Product r') (Product r)) eqn:E.
  - destruct Hin as [->|Hin]; [reflexivity|].
    exfalso. apply Hnotin.
    apply (pair_eqb_true (pair_of r') (pair_of r)) in E. rewrite E. now apply in_map.
  - destruct Hin as [->|Hin]; [|now apply IH].
    rewrite !String.eqb_refl in E. discriminate.
Qed.

Lemma cell_missing (df : DataFrame) (person product : string) :
  ~ In (person, product) (map pair_of df) -> cell df person product = nan.
Proof.
  intros Hnotin. unfold cell.
  destruct (find _ df) as [r|] eqn:E; [|reflexivity].
  apply find_some in E as [Hin E]. exfalso. apply Hnotin.
  apply (pair_eqb_true (pair_of r) (person, product)) in E. rewrite <- E. now apply in_map.
Qed.

Lemma NoDup_list_prod {A B : Type} (l : list A) (l' : list B) :
  NoDup l -> NoDup l' -> NoDup (list_prod l l').
Proof.
  intros Hl Hl'. induction Hl as [|x l Hx Hl IH]; cbn [list_prod]; [constructor|].
  apply NoDup_app; repeat split.
  - apply Finite.Injective_map_NoDup; [|assumption]. intros a b [= ->]. reflexivity.
  - assumption.
  - intros [a b] H1 H2. apply in_map_iff in H1 as (y & [= <- <-] & _).
    apply in_prod_iff in H2 as [H2 _]. contradiction.
Qed.

Lemma require_column_ok (df : DataFrame) (name : string) :
  df <> [] -> require_column df name = Ok tt.
Proof. destruct df; [congruence|reflexivity]. Qed.

Lemma pivot_empty : pivot [] = Raise (KeyError "Person").
Proof. reflexivity. Qed.

Lemma pivot_ok (df : DataFrame) :
  df <> [] -> NoDup (map pair_of df) ->
  pivot df = Ok (mkPivot (sorted_unique (map Person df)) (sorted_unique (map Product df))
                   (map (fun p => map (fun q => cell df p q)
                                      (sorted_unique (map Product df)))
                        (sorted_unique (map Person df)))).
Proof.
  intros Hne Hnd. unfold pivot. rewrite (require_column_ok df _ Hne). cbn [rbind].
  change (map (fun r => (Person r, Product r)) df) with (map pair_of df).
  now rewrite (proj2 (has_duplicates_false _) Hnd).
Qed.

Lemma pivot_duplicate (df : DataFrame) :
  ~ NoDup (map pair_of df) ->
  pivot df = Raise (ValueError "Index contains duplicate entries, cannot reshape").
Proof.
  intros Hd. assert (Hne : df <> []) by (intros ->; apply Hd; constructor).
  unfold pivot. rewrite (require_column_ok df _ Hne). cbn [rbind].
  change (map (fun r => (Person r, Product r)) df) with (map pair_of df).
  now rewrite (proj2 (has_duplicates_true _) Hd).
Qed.

Lemma flatten_pivot_pairs (df : DataFrame) (idx cols : list string) :
  map pair_of (flatten (mkPivot idx cols (map (fun p => map (fun q => cell df p q) cols) idx)))
  = list_prod idx cols.
Proof.
  rewrite flatten_pivot, map_map. rewrite <- (map_id (list_prod idx cols)) at 2.
  apply map_ext. now intros [p q].
Qed.

(** * Sums of half-step ratings are exact *)

Lemma Z_upto_In (n : nat) (k j : Z) : k <= j < k + Z.of_nat n -> In j (Z_upto n k).
Proof.
  revert k. induction n as [|n IH]; intros k H; [lia|]. cbn [Z_upto].
  destruct (Z.eq_dec j k) as [->|Hne]; [now left|].
  right. apply IH. lia.
Qed.

Lemma Z_range_In (n j : Z) : 0 <= j < n -> In j (Z_range n).
Proof. intros H. apply Z_upto_In. lia. Qed.

Lemma totals_exact : forallb total_exact (Z_range 10001) = true.
Proof. vm_compute. reflexivity. Qed.

Lemma counts_finite :
  forallb (fun n => match Prim2SF (float_of_count n) with
                    | S754_finite _ _ _ => true
                    | _ => false
                    end) (map Z.succ (Z_range 1000)) = true.
Proof. vm_compute. reflexivity. Qed.

Lemma total_exact_true (j : Z) : 0 <= j <= 10000 -> total_exact j = true.
Proof.
  intros H. pose proof totals_exact as T. rewrite forallb_forall in T.
  apply T, Z_range_In. lia.
Qed.

(** The float of a total of at most 10000 halves holds that total exactly. *)
Lemma of_halves_exact (j : Z) : 0 <= j <= 10000 -> halves (of_halves j) = j.
Proof.
  intros H. pose proof (total_exact_true j H) as T. unfold total_exact in T.
  apply andb_prop in T as [T _]. apply andb_prop in T as [T _]. now apply Z.eqb_eq.
Qed.

Lemma count_finite (n : Z) :
  1 <= n <= 1000 -> exists s m e, Prim2SF (float_of_count n) = S754_finite s m e.
Proof.
  intros H. pose proof counts_finite as T. rewrite forallb_forall in T.
  specialize (T n). destruct (Prim2SF (float_of_count n)); eauto; exfalso.
  all: assert (false = true); [apply T|discriminate].
  all: apply in_map_iff; exists (n - 1); (split; [lia|apply Z_range_In; lia]).
Qed.

Lemma scale_halves (r : float) :
  In r rating_scale -> r = of_halves (halves r) /\ 2 <= halves r <= 10.
Proof.
  unfold rating_scale. cbn [In]. intros H.
  repeat (destruct H as [<- | H]); [..|contradiction];
    (split; [vm_compute; reflexivity | vm_compute; split; discriminate]).
Qed.

Lemma kahan_add_exact (n j k : Z) :
  0 <= j <= 10000 -> 2 <= k <= 10 ->
  kahan_add (mkAcc n (of_halves j) 0) (of_halves k) = mkAcc (n + 1) (of_halves (j + k)) 0.
Proof.
  intros Hj Hk. pose proof (total_exact_true j Hj) as T. unfold total_exact in T.
  apply andb_prop in T as [_ T]. rewrite forallb_forall in T.
  assert (S : kahan_step_exact j k = true).
  { apply T. cbn [In]. lia. }
  unfold kahan_step_exact in S. cbv zeta in S.
  apply andb_prop in S as [S Hc]. apply andb_prop in S as [Hnan Ht].
  apply negb_true_iff in Hnan. apply Leibniz.eqb_spec in Ht, Hc.
  unfold kahan_add. cbn [compensation sumx nobs]. rewrite Hnan. cbv zeta.
  f_equal; assumption.
Qed.

Lemma fold_kahan_exact (vals : list float) :
  Forall (fun v => In v rating_scale) vals ->
  forall n j, 0 <= j -> j + 10 * Z.of_nat (List.length vals) <= 10000 ->
  fold_left kahan_add vals (mkAcc n (of_halves j) 0)
  = mkAcc (n + Z.of_nat (List.length vals))
          (of_halves (j + fold_right Z.add 0 (map halves vals))) 0
  /\ 0 <= fold_right Z.add 0 (map halves vals) <= 10 * Z.of_nat (List.length vals).
Proof.
  induction 1 as [|v vals Hv _ IH]; intros n j Hj Hb.
  - cbn. rewrite !Z.add_0_r. split; [reflexivity|lia].
  - cbn [List.length] in Hb. rewrite Nat2Z.inj_succ in Hb.
    destruct (scale_halves v Hv) as [Ev Hk].
    cbn [fold_left]. rewrite Ev at 1. rewrite kahan_add_exact by lia.
    destruct (IH (n + 1) (j + halves v)) as [E B]; [lia|lia|].
    rewrite E. cbn [List.length map fold_right]. rewrite Nat2Z.inj_succ. split.
    + f_equal; [lia|]. f_equal. lia.
    + lia.
Qed.

Lemma series_mean_exact (vals : list float) :
  Forall (fun v => In v rating_scale) vals -> (List.length vals <= 1000)%nat ->
  series_mean vals = exact_mean vals.
Proof.
  intros Hs Hl. unfold series_mean, exact_mean.
  change (mkAcc 0 0 0) with (mkAcc 0 (of_halves 0) 0).
  destruct (fold_kahan_exact vals Hs 0 0) as [E _]; [lia|lia|].
  rewrite E. unfold group_result. cbn [nobs sumx]. rewrite !Z.add_0_l.
  destruct vals as [|v vals]; [reflexivity|].
  cbn [List.length]. rewrite Nat2Z.inj_succ.
  destruct (Z.succ _ =? 0) eqn:Z0; [apply Z.eqb_eq in Z0; lia|reflexivity].
Qed.

(** * Division of a finite float by a non-zero finite float *)

Lemma SFdiv_not_nan (x : spec_float) (s : bool) (m : positive) (e : Z) :
  SF_is_finite x = true -> SF64div x (S754_finite s m e) <> S754_nan.
Proof.
  intros Hx. unfold SF64div, SFdiv.
  destruct x as [sx | sx | | sx mx ex]; try discriminate.
  destruct (SFdiv_core_binary prec emax (Zpos mx) ex (Zpos m) e) as [[mz ez] lz] eqn:E.
  apply binary_round_aux_not_nan.
  unfold SFdiv_core_binary in E. cbv zeta in E.
  match type of E with context [Z.div_eucl ?a ?b] =>
    pose proof (Z.div_eucl_eq a b ltac:(lia)) as D;
    pose proof (Z.mod_pos_bound a b ltac:(lia)) as B;
    assert (0 <= a) by (destruct (ex - e - _); [lia|apply Z.shiftl_nonneg; lia|lia]);
    unfold Z.modulo in B; destruct (Z.div_eucl a b) as [q r] end.
  injection E as <- _ _. nia.
Qed.

Lemma exact_mean_not_nan (vals : list float) :
  Forall (fun v => In v rating_scale) vals ->
  vals <> [] -> (List.length vals <= 1000)%nat ->
  is_nan (exact_mean vals) = false.
Proof.
  intros Hs Hne Hl. unfold exact_mean. cbv zeta.
  destruct (fold_kahan_exact vals Hs 0 0) as [_ B]; [lia|lia|].
  assert (Hn : 1 <= Z.of_nat (List.length vals) <= 1000).
  { destruct vals; [congruence|cbn [List.length] in *; lia]. }
  destruct (count_finite _ Hn) as (s & m & e & Hc).
  pose proof (total_exact_true (fold_right Z.add 0 (map halves vals)) ltac:(lia)) as T.
  unfold total_exact in T. apply andb_prop in T as [T _]. apply andb_prop in T as [_ T].
  destruct (is_nan _) eqn:E; [|reflexivity].
  apply Prim2SF_nan in E. rewrite div_spec, Hc in E.
  now apply SFdiv_not_nan in E.
Qed.

(** * A run of the script *)

Lemma people_known :
  Forall (fun person => exists b, dict_get person_bias person = Ok b) people.
Proof. repeat constructor; eexists; reflexivity. Qed.

Lemma products_known :
  Forall (fun product => exists b, dict_get product_base_scores product = Ok b) products.
Proof. repeat constructor; eexists; reflexivity. Qed.

Lemma people_NoDup : NoDup people.
Proof. pose proof (NoDup_nodup string_dec people) as H. exact H. Qed.

Lemma products_NoDup : NoDup products.
Proof. pose proof (NoDup_nodup string_dec products) as H. exact H. Qed.

Lemma pairs_NoDup : NoDup (list_prod people products).
Proof. apply NoDup_list_prod; [apply people_NoDup|apply products_NoDup]. Qed.

(** On a frame that has its columns the summaries are the sorted, labelled
    group means. *)
Lemma person_summary_ok (df : DataFrame) :
  df <> [] ->
  person_summary df
  = Ok (map (fun kv => (fst kv, snd kv, tendency (snd kv)))
            (sort_values_descending (groupby_mean Person df))).
Proof. intros Hne. unfold person_summary. now rewrite (require_column_ok df _ Hne). Qed.

Lemma product_summary_ok (df : DataFrame) :
  df <> [] ->
  product_summary df
  = Ok (map (fun kv => (fst kv, snd kv, quality (snd kv)))
            (sort_values_descending (groupby_mean Product df))).
Proof. intros Hne. unfold product_summary. now rewrite (require_column_ok df _ Hne). Qed.

Section ScriptFacts.

Context {L : Library}.

Lemma script_run (np_seed py_seed : Z) (st : state) :
  exists records persons prods t,
    generated compute_rating product_base_scores person_bias
              (list_prod people products)
              (fst (np_draws 50 (np_random_seed np_seed))) records /\
    person_summary records = Ok persons /\
    product_summary records = Ok prods /\
    pivot records = Ok t /\
    script np_seed py_seed st
    = Ok (mkReport records persons prods t (List.length records),
          mkState (snd (np_draws 50 (np_random_seed np_seed))) (random_seed py_seed)
                  records
                  (("product_ratings.csv", csv_text records) :: files st)).
Proof.
  destruct (generate_run people products product_base_scores person_bias
              people_known products_known
              (mkState (np_random_seed np_seed) (random_seed py_seed) [] (files st)))
    as (records & Hgen & Hrun).
  cbn [np_state py_state ratings_data files app] in Hgen, Hrun.
  change (List.length people * List.length products)%nat with 50%nat in Hgen, Hrun.
  assert (Hnd : NoDup (map pair_of records)).
  { rewrite (generated_pairs _ _ _ _ _ _ Hgen). apply pairs_NoDup. }
  assert (Hne : records <> []).
  { intros ->. apply generated_length in Hgen. discriminate. }
  exists records. eexists. eexists. eexists.
  split; [exact Hgen|]. split; [apply (person_summary_ok _ Hne)|].
  split; [apply (product_summary_ok _ Hne)|]. split; [apply (pivot_ok _ Hne Hnd)|].
  unfold script, bind, modify, get_state, lift, to_csv, ret.
  cbn [np_state py_state ratings_data files]. rewrite Hrun.
  cbn [np_state py_state ratings_data files]. unfold pd_DataFrame.
  rewrite (person_summary_ok _ Hne), (product_summary_ok _ Hne), (pivot_ok _ Hne Hnd).
  reflexivity.
Qed.

End ScriptFacts.

(** * Summaries *)

Lemma scale_valid (r : float) : In r rating_scale -> valid_rating r.
Proof.
  unfold rating_scale, valid_rating. cbn [In]. intros H.
  repeat (destruct H as [<- | H]); [..|contradiction]; split; reflexivity.
Qed.

Lemma compute_rating_on_scale (base_score bias noise rating : float) :
  compute_rating base_score bias noise = Ok rating -> In rating rating_scale.
Proof.
  intros H. destruct (compute_rating_scale base_score bias noise) as (r & Hr & Hin).
  congruence.
Qed.

Lemma generated_scale pbs pb pairs draws records :
  generated compute_rating pbs pb pairs draws records ->
  Forall (fun r => In (Rating r) rating_scale) records.
Proof.
  apply (generated_Forall (fun x => In x rating_scale)).
  intros. eapply compute_rating_on_scale; eauto.
Qed.

Lemma StronglySorted_impl_Forall {A : Type} (R R' : A -> A -> Prop) (Q : A -> Prop)
    (l : list A) :
  (forall a b, Q b -> R a b -> R' a b) -> Forall Q l ->
  StronglySorted R l -> StronglySorted R' l.
Proof.
  intros HR HQ Hs. induction Hs as [|a l Hs IH Ha]; constructor.
  - apply IH. now inversion HQ.
  - inversion HQ as [|? ? _ HQl]; subst.
    rewrite Forall_forall in *. intros b Hb. apply HR; auto.
Qed.

Lemma group_values_nonempty (key : rating_record -> string) (k : string) (df : DataFrame) :
  In k (map key df) -> group_values key k df <> [].
Proof.
  intros Hin. apply in_map_iff in Hin as (r & <- & Hr). unfold group_values.
  assert (H : In (Rating r) (map Rating (filter (fun r' => String.eqb (key r') (key r)) df))).
  { apply in_map, filter_In. split; [assumption|apply String.eqb_refl]. }
  intros E. rewrite E in H. contradiction.
Qed.

Lemma group_values_scale (key : rating_record -> string) (k : string) (df : DataFrame) :
  Forall (fun r => In (Rating r) rating_scale) df ->
  Forall (fun v => In v rating_scale) (group_values key k df).
Proof.
  intros H. unfold group_values. apply Forall_map, Forall_forall.
  intros r Hr. apply filter_In in Hr as [Hr _]. rewrite Forall_forall in H. now apply H.
Qed.

Lemma group_values_length (key : rating_record -> string) (k : string) (df : DataFrame) :
  (List.length (group_values key k df) <= List.length df)%nat.
Proof. unfold group_values. rewrite length_map. apply filter_length_le. Qed.

Section SummaryFacts.

Variable key : rating_record -> string.
Variable label : float -> string.
Variable df : DataFrame.
Variable lines : list (string * float * string).

Hypothesis lines_def :
  lines = map (fun kv => (fst kv, snd kv, label (snd kv)))
              (sort_values_descending (groupby_mean key df)).

Lemma summarise_raw :
  Permutation (map (fun l => fst (fst l)) lines) (sorted_unique (map key df))
  /\ Forall (fun l => snd (fst l) = series_mean (group_values key (fst (fst l)) df)
                      /\ snd l = label (snd (fst l))) lines
  /\ StronglySorted (fun a b => descending (snd (fst a)) (snd (fst b))) lines.
Proof.
  rewrite lines_def. repeat split.
  - rewrite map_map. cbn [fst].
    change (fun x : string * float => fst x) with (@fst string float).
    rewrite sort_values_descending_Permutation, groupby_mean_spec, map_map.
    cbn [fst]. now rewrite map_id.
  - apply Forall_map, Forall_forall. intros [k avg] Hin. cbn [fst snd].
    split; [|reflexivity].
    apply (Permutation_in _ (sort_values_descending_Permutation _)) in Hin.
    rewrite groupby_mean_spec in Hin. apply in_map_iff in Hin as (k' & E & _).
    now injection E as <- <-.
  - apply StronglySorted_map. cbn [fst snd]. apply sort_values_descending_sorted.
Qed.

Lemma summarise_exact :
  Forall (fun r => In (Rating r) rating_scale) df ->
  (List.length df <= 1000)%nat ->
  summary_of key label df lines.
Proof.
  intros Hs Hl. destruct summarise_raw as (Hperm & Hmean & Hsort).
  assert (Hkeys : Forall (fun l : string * float * string =>
                            In (fst (fst l)) (map key df)) lines).
  { apply Forall_forall. intros l Hl'.
    apply (proj1 (sorted_unique_In _ _)).
    apply (Permutation_in _ Hperm).
    now apply (in_map (fun l : string * float * string => fst (fst l))). }
  assert (Hexact : Forall (fun l : string * float * string =>
              snd (fst l) = exact_mean (group_values key (fst (fst l)) df)
              /\ snd l = label (snd (fst l))) lines).
  { rewrite Forall_forall in Hmean. apply Forall_forall. intros l Hin.
    destruct (Hmean l Hin) as [E1 E2]. split; [|assumption].
    rewrite E1. apply series_mean_exact; [now apply group_values_scale|].
    pose proof (group_values_length key (fst (fst l)) df). lia. }
  repeat split; [assumption|assumption|].
  eapply (StronglySorted_impl_Forall _ _
            (fun l : string * float * string => is_nan (snd (fst l)) = false));
    [| |exact Hsort].
  - intros a b Hb [H|H]; [assumption|congruence].
  - rewrite Forall_forall in Hexact, Hkeys. apply Forall_forall. intros l Hin.
    destruct (Hexact l Hin) as [-> _].
    apply exact_mean_not_nan; [now apply group_values_scale| |].
    + apply group_values_nonempty. now apply Hkeys.
    + pose proof (group_values_length key (fst (fst l)) df). lia.
Qed.

End SummaryFacts.

Lemma person_summary_exact (df : DataFrame) :
  df <> [] ->
  Forall (fun r => In (Rating r) rating_scale) df -> (List.length df <= 1000)%nat ->
  exists lines, person_summary df = Ok lines /\ summary_of Person tendency df lines.
Proof.
  intros Hne Hs Hl. eexists. split; [apply (person_summary_ok df Hne)|].
  now apply summarise_exact.
Qed.

Lemma product_summary_exact (df : DataFrame) :
  df <> [] ->
  Forall (fun r => In (Rating r) rating_scale) df -> (List.length df <= 1000)%nat ->
  exists lines, product_summary df = Ok lines /\ summary_of Product quality df lines.
Proof.
  intros Hne Hs Hl. eexists. split; [apply (product_summary_ok df Hne)|].
  now apply summarise_exact.
Qed.

(** The people and products of a generated collection are those of the
    tables. *)
Lemma generated_people (records : list rating_record) :
  map pair_of records = list_prod people products ->
  Permutation (sorted_unique (map Person records)) people.
Proof.
  intros Hp. apply NoDup_Permutation; [apply sorted_unique_NoDup|apply people_NoDup|].
  intros p. rewrite sorted_unique_In.
  replace (map Person records) with (map fst (map pair_of records))
    by (rewrite map_map; reflexivity).
  rewrite Hp, in_map_iff. split.
  - intros ([p' q] & <- & H). now apply in_prod_iff in H.
  - intros H. exists (p, "Laptop Pro"). split; [reflexivity|].
    apply in_prod_iff. split; [assumption|now left].
Qed.

Lemma generated_products (records : list rating_record) :
  map pair_of records = list_prod people products ->
  Permutation (sorted_unique (map Product records)) products.
Proof.
  intros Hp. apply NoDup_Permutation; [apply sorted_unique_NoDup|apply products_NoDup|].
  intros q. rewrite sorted_unique_In.
  replace (map Product records) with (map snd (map pair_of records))
    by (rewrite map_map; reflexivity).
  rewrite Hp, in_map_iff. split.
  - intros ([p q'] & <- & H). now apply in_prod_iff in H.
  - intros H. exists ("Alice", q). split; [reflexivity|].
    apply in_prod_iff. split; [now left|assumption].
Qed.

(** * The claims of the specification *)

(** C2.  Whatever the noise, the rating computed for a pair lies in
    [1.0, 5.0] and is an exact multiple of 0.5; so does every rating of the
    collection a run emits. *)
Theorem rating_value_invariant :
  (forall base_score bias noise : float,
      exists rating,
        compute_rating base_score bias noise = Ok rating /\ valid_rating rating) /\
  (forall (L : Library) (st : state),
      exists rep st',
        main st = Ok (rep, st') /\
        ratings_data st' = shown_dataset rep /\
        Forall (fun r => valid_rating (Rating r)) (shown_dataset rep)).
Proof.
  split.
  - intros base_score bias noise.
    destruct (compute_rating_scale base_score bias noise) as (r & Hr & Hin).
    exists r. split; [assumption|now apply scale_valid].
  - intros L st. destruct (script_run 42 42 st) as (records & persons & prods & t & Hgen & _ & _ & _ & Hrun).
    eexists. eexists. split; [exact Hrun|]. split; [reflexivity|].
    cbn [shown_dataset]. eapply Forall_impl; [|exact (generated_scale _ _ _ _ _ Hgen)].
    intros r. apply scale_valid.
Qed.

(** C3, as the code has it.  The matrix view fails, with the error
    "Index contains duplicate entries, cannot reshape", exactly when some
    (person, product) pair occurs twice, and is built exactly when the
    collection is not empty and no pair occurs twice; the empty collection
    gives a frame without columns, on which it fails with KeyError.  A pair
    that does not occur does not make it fail: its cell is NaN. *)
Theorem pivot_fails_iff_duplicate (df : DataFrame) :
  (pivot df = Raise (ValueError "Index contains duplicate entries, cannot reshape")
   <-> ~ NoDup (map pair_of df)) /\
  ((exists t, pivot df = Ok t) <-> df <> [] /\ NoDup (map pair_of df)) /\
  (pivot df = Raise (KeyError "Person") <-> df = []) /\
  (forall t person product,
      pivot df = Ok t -> In person (index_labels t) -> In product (column_labels t) ->
      ~ In (person, product) (map pair_of df) ->
      In (mkRating person product nan) (flatten t)).
Proof.
  destruct df as [|r df'].
  { rewrite pivot_empty. split; [|split; [|split]].
    - split; [discriminate|]. intros H. exfalso. apply H. constructor.
    - split; [intros [t H]; discriminate|]. intros [H _]. congruence.
    - tauto.
    - discriminate. }
  set (df := r :: df') in *. assert (Hne : df <> []) by discriminate.
  destruct (has_duplicates (map pair_of df)) eqn:E.
  - apply has_duplicates_true in E. rewrite (pivot_duplicate df E).
    split; [|split; [|split]].
    + tauto.
    + split; [intros [t H]; discriminate|]. intros [_ H]. contradiction.
    + split; [discriminate|]. intros H. contradiction.
    + discriminate.
  - apply has_duplicates_false in E. rewrite (pivot_ok df Hne E).
    split; [|split; [|split]].
    + split; [discriminate|]. intros H. contradiction.
    + split; eauto.
    + split; [discriminate|]. intros H. contradiction.
    + intros t person product [= <-] Hp Hq Hmiss.
      cbn [index_labels column_labels] in Hp, Hq.
      rewrite flatten_pivot. apply in_map_iff. exists (person, product).
      cbn [fst snd]. rewrite (cell_missing df person product Hmiss).
      split; [reflexivity|]. now apply in_prod_iff.
Qed.

(** C3, as stated, fails: a frame that lacks two of the four pairs of its
    people and products is accepted. *)
Lemma pivot_accepts_missing_pair :
  ~ complete sparse_frame /\
  pivot sparse_frame
  = Ok (mkPivot ["Alice"; "Bob"] ["Laptop Pro"; "Tablet Mini"]
                [[4.5; nan]; [nan; 3]]%float).
Proof.
  split; [|reflexivity].
  intros H. specialize (H "Alice" "Tablet Mini").
  cbn in H. destruct H as [H|[H|[]]]; try discriminate; tauto.
Qed.

(** C4.  The collection does not depend on the state the process starts
    in: any two runs show the same report, hold the same records in the same
    order and write the same file. *)
Theorem generation_deterministic (L : Library) (st1 st2 : state) :
  exists rep st1' st2' text,
    main st1 = Ok (rep, st1') /\ main st2 = Ok (rep, st2') /\
    ratings_data st1' = shown_dataset rep /\
    ratings_data st2' = shown_dataset rep /\
    np_state st1' = np_state st2' /\
    files st1' = ("product_ratings.csv", text) :: files st1 /\
    files st2' = ("product_ratings.csv", text) :: files st2.
Proof.
  destruct (script_run 42 42 st1)
    as (records1 & persons1 & prods1 & t1 & Hgen1 & Hps1 & Hqs1 & Hp1 & Hrun1).
  destruct (script_run 42 42 st2)
    as (records2 & persons2 & prods2 & t2 & Hgen2 & Hps2 & Hqs2 & Hp2 & Hrun2).
  assert (records2 = records1) by (eapply generated_functional; eauto). subst records2.
  assert (t2 = t1) by congruence. subst t2.
  assert (persons2 = persons1) by congruence. subst persons2.
  assert (prods2 = prods1) by congruence. subst prods2.
  do 4 eexists. split; [exact Hrun1|]. split; [exact Hrun2|].
  repeat split; reflexivity.
Qed.

Lemma list_prod_nth {A B : Type} (l : list A) (l' : list B) (d : A) (d' : B) (i j : nat) :
  (i < List.length l)%nat -> (j < List.length l')%nat ->
  nth_error (list_prod l l') (i * List.length l' + j) = Some (nth i l d, nth j l' d').
Proof.
  revert i. induction l as [|x l IH]; intros i Hi Hj; cbn [List.length] in Hi; [lia|].
  cbn [list_prod]. destruct i as [|i].
  - cbn [Nat.mul Nat.add nth]. rewrite nth_error_app1 by (rewrite length_map; lia).
    rewrite nth_error_map, (nth_error_nth' l' d' Hj). reflexivity.
  - cbn [Nat.mul nth]. rewrite nth_error_app2 by (rewrite length_map; lia).
    rewrite length_map.
    replace (List.length l' + i * List.length l' + j - List.length l')%nat
      with (i * List.length l' + j)%nat by lia.
    apply IH; lia.
Qed.

(** C5.  The collection of a run has one record for each of the
    |people| x |products| = 50 pairs and no pair twice, person-major and
    product-minor in table order: the record of the i-th person and the j-th
    product is at position i * |products| + j. *)
Theorem collection_one_record_per_pair (L : Library) (st : state) :
  exists rep st',
    main st = Ok (rep, st') /\
    ratings_data st' = shown_dataset rep /\
    List.length (shown_dataset rep) = (List.length people * List.length products)%nat /\
    List.length (shown_dataset rep) = 50%nat /\
    map pair_of (shown_dataset rep) = list_prod people products /\
    NoDup (map pair_of (shown_dataset rep)) /\
    (forall person product,
        In person people -> In product products ->
        In (person, product) (map pair_of (shown_dataset rep))) /\
    (forall i j,
        (i < List.length people)%nat -> (j < List.length products)%nat ->
        nth_error (map pair_of (shown_dataset rep)) (i * List.length products + j)
        = Some (nth i people "", nth j products "")).
Proof.
  destruct (script_run 42 42 st) as (records & persons & prods & t & Hgen & _ & _ & _ & Hrun).
  eexists. eexists. split; [exact Hrun|]. cbn [shown_dataset ratings_data].
  pose proof (generated_pairs _ _ _ _ _ _ Hgen) as Hpairs.
  pose proof (generated_length _ _ _ _ _ _ Hgen) as Hlen.
  rewrite length_prod in Hlen.
  repeat split; try assumption.
  - rewrite Hpairs. apply pairs_NoDup.
  - intros person product Hp Hq. rewrite Hpairs. now apply in_prod.
  - intros i j Hi Hj. rewrite Hpairs. now apply list_prod_nth.
Qed.

(** C6.  The per-person summary lists every person once, with the
    arithmetic mean of that person's ratings, in descending order of mean,
    and labels a mean "generous" when it is above 3.5, "harsh" when it is
    below 3.0 and "neutral" otherwise: so in every run, and for every
    non-empty frame of at most 1000 half-step ratings.  The frame of an
    empty list has no Person column to group by.  The means 3.6, 2.9 and 3.2
    are labelled generous, harsh and neutral. *)
Theorem person_summary_means_sorted_labelled :
  (forall (L : Library) (st : state),
      exists rep st',
        main st = Ok (rep, st') /\
        person_summary (shown_dataset rep) = Ok (shown_person_avg rep) /\
        summary_of Person tendency (shown_dataset rep) (shown_person_avg rep) /\
        Permutation (map (fun l => fst (fst l)) (shown_person_avg rep)) people) /\
  (forall df : DataFrame,
      df <> [] ->
      Forall (fun r => In (Rating r) rating_scale) df ->
      (List.length df <= 1000)%nat ->
      exists lines,
        person_summary df = Ok lines /\ summary_of Person tendency df lines) /\
  person_summary [] = Raise (KeyError "Person") /\
  (forall avg : float,
      (PrimFloat.ltb 3.5 avg = true -> tendency avg = "generous") /\
      (PrimFloat.ltb 3.5 avg = false -> PrimFloat.ltb avg 3.0 = true ->
       tendency avg = "harsh") /\
      (PrimFloat.ltb 3.5 avg = false -> PrimFloat.ltb avg 3.0 = false ->
       tendency avg = "neutral")) /\
  tendency 3.6 = "generous" /\ tendency 2.9 = "harsh" /\ tendency 3.2 = "neutral".
Proof.
  split; [|split; [exact person_summary_exact|split; [reflexivity|]]].
  - intros L st.
    destruct (script_run 42 42 st)
      as (records & persons & prods & t & Hgen & Hps & _ & _ & Hrun).
    eexists. eexists. split; [exact Hrun|]. cbn [shown_dataset shown_person_avg].
    split; [exact Hps|].
    assert (Hne : records <> []).
    { intros ->. apply generated_length in Hgen. discriminate. }
    destruct (person_summary_exact records Hne) as (lines & Hlines & Hsum).
    { exact (generated_scale _ _ _ _ _ Hgen). }
    { rewrite (generated_length _ _ _ _ _ _ Hgen), length_prod. cbn. lia. }
    assert (lines = persons) by congruence. subst lines.
    split; [exact Hsum|].
    destruct Hsum as (Hperm & _). rewrite Hperm.
    apply generated_people. exact (generated_pairs _ _ _ _ _ _ Hgen).
  - split; [|repeat split; reflexivity].
    intros avg. unfold tendency. repeat split.
    + now intros ->.
    + now intros -> ->.
    + now intros -> ->.
Qed.

(** C7.  The per-product summary lists every product once, with the
    arithmetic mean of its ratings, in descending order of mean, and labels
    a mean "excellent" above 4.0, "good" above 3.5, "average" above 3.0 and
    "poor" otherwise: so in every run, and for every non-empty frame of at
    most 1000 half-step ratings.  The frame of an empty list has no Product
    column to group by. *)
Theorem product_summary_means_sorted_labelled :
  (forall (L : Library) (st : state),
      exists rep st',
        main st = Ok (rep, st') /\
        product_summary (shown_dataset rep) = Ok (shown_product_avg rep) /\
        summary_of Product quality (shown_dataset rep) (shown_product_avg rep) /\
        Permutation (map (fun l => fst (fst l)) (shown_product_avg rep)) products) /\
  (forall df : DataFrame,
      df <> [] ->
      Forall (fun r => In (Rating r) rating_scale) df ->
      (List.length df <= 1000)%nat ->
      exists lines,
        product_summary df = Ok lines /\ summary_of Product quality df lines) /\
  product_summary [] = Raise (KeyError "Product") /\
  (forall avg : float,
      (PrimFloat.ltb 4.0 avg = true -> quality avg = "excellent") /\
      (PrimFloat.ltb 4.0 avg = false -> PrimFloat.ltb 3.5 avg = true ->
       quality avg = "good") /\
      (PrimFloat.ltb 4.0 avg = false -> PrimFloat.ltb 3.5 avg = false ->
       PrimFloat.ltb 3.0 avg = true -> quality avg = "average") /\
      (PrimFloat.ltb 4.0 avg = false -> PrimFloat.ltb 3.5 avg = false ->
       PrimFloat.ltb 3.0 avg = false -> quality avg = "poor")).
Proof.
  split; [|split; [exact product_summary_exact|split; [reflexivity|]]].
  - intros L st.
    destruct (script_run 42 42 st)
      as (records & persons & prods & t & Hgen & _ & Hqs & _ & Hrun).
    eexists. eexists. split; [exact Hrun|]. cbn [shown_dataset shown_product_avg].
    split; [exact Hqs|].
    assert (Hne : records <> []).
    { intros ->. apply generated_length in Hgen. discriminate. }
    destruct (product_summary_exact records Hne) as (lines & Hlines & Hsum).
    { exact (generated_scale _ _ _ _ _ Hgen). }
    { rewrite (generated_length _ _ _ _ _ _ Hgen), length_prod. cbn. lia. }
    assert (lines = prods) by congruence. subst lines.
    split; [exact Hsum|].
    destruct Hsum as (Hperm & _). rewrite Hperm.
    apply generated_products. exact (generated_pairs _ _ _ _ _ _ Hgen).
  - intros avg. unfold quality. repeat split.
    + now intros ->.
    + now intros -> ->.
    + now intros -> -> ->.
    + now intros -> -> ->.
Qed.

(** C8.  For a non-empty collection with exactly one record per
    (person, product) pair, no pair twice and none missing, the matrix view
    is built and its cells, flattened back, are the original records. *)
Theorem pivot_flatten_round_trip (df : DataFrame) :
  df <> [] -> NoDup (map pair_of df) -> complete df ->
  exists t, pivot df = Ok t /\ Permutation (flatten t) df.
Proof.
  intros Hne Hnd Hc. rewrite (pivot_ok df Hne Hnd). eexists. split; [reflexivity|].
  apply NoDup_Permutation.
  - apply (NoDup_map_inv pair_of). rewrite flatten_pivot_pairs.
    apply NoDup_list_prod; apply sorted_unique_NoDup.
  - now apply (NoDup_map_inv pair_of).
  - intros r. rewrite flatten_pivot, in_map_iff. split.
    + intros ([p q] & <- & Hpq). cbn [fst snd].
      apply in_prod_iff in Hpq as [Hp Hq].
      apply (proj1 (sorted_unique_In _ _)) in Hp, Hq.
      specialize (Hc p q Hp Hq). apply in_map_iff in Hc as (r' & E & Hr').
      injection E as <- <-. rewrite (cell_found df r' Hnd Hr'). now destruct r'.
    + intros Hr. exists (pair_of r). split.
      * cbn [pair_of fst snd]. rewrite (cell_found df r Hnd Hr). now destruct r.
      * apply in_prod_iff. split; apply sorted_unique_In; now apply in_map.
Qed.

(** C10.  The seed given to the random module does not reach any output:
    for any two values of it the script shows the same report, holds the
    same records, leaves numpy's generator in the same state and writes the
    same files; the random module's generator is left as seeded, never
    drawn from. *)
Theorem random_seed_noninterference (L : Library) (np_seed seed1 seed2 : Z) (st : state) :
  exists rep st1 st2,
    script np_seed seed1 st = Ok (rep, st1) /\
    script np_seed seed2 st = Ok (rep, st2) /\
    ratings_data st1 = ratings_data st2 /\
    np_state st1 = np_state st2 /\
    files st1 = files st2 /\
    py_state st1 = random_seed seed1 /\
    py_state st2 = random_seed seed2.
Proof.
  destruct (script_run np_seed seed1 st)
    as (records1 & persons1 & prods1 & t1 & Hgen1 & Hps1 & Hqs1 & Hp1 & Hrun1).
  destruct (script_run np_seed seed2 st)
    as (records2 & persons2 & prods2 & t2 & Hgen2 & Hps2 & Hqs2 & Hp2 & Hrun2).
  assert (records2 = records1) by (eapply generated_functional; eauto). subst records2.
  assert (t2 = t1) by congruence. subst t2.
  assert (persons2 = persons1) by congruence. subst persons2.
  assert (prods2 = prods1) by congruence. subst prods2.
  do 3 eexists. split; [exact Hrun1|]. split; [exact Hrun2|].
  repeat split; reflexivity.
Qed.

(** * The theorems at concrete data *)

Lemma pivot_flatten_round_trip_witness :
  exists t, pivot full_frame = Ok t /\ Permutation (flatten t) full_frame.
Proof.
  apply (pivot_flatten_round_trip full_frame).
  - discriminate.
  - repeat constructor; cbn; intuition discriminate.
  - intros person product Hp Hq. cbn in Hp, Hq |- *.
    intuition (subst; auto).
Defined.

Lemma person_summary_witness :
  exists lines,
    person_summary full_frame = Ok lines /\ summary_of Person tendency full_frame lines.
Proof.
  apply (proj1 (proj2 person_summary_means_sorted_labelled) full_frame).
  - discriminate.
  - repeat constructor; cbn; tauto.
  - cbn. lia.
Defined.

Lemma product_summary_witness :
  exists lines,
    product_summary full_frame = Ok lines /\ summary_of Product quality full_frame lines.
Proof.
  apply (proj1 (proj2 product_summary_means_sorted_labelled) full_frame).
  - discriminate.
  - repeat constructor; cbn; tauto.
  - cbn. lia.
Defined.

Lemma pivot_fails_iff_duplicate_witness :
  In (mkRating "Alice" "Tablet Mini" nan)
     (flatten (mkPivot ["Alice"; "Bob"] ["Laptop Pro"; "Tablet Mini"]
                       [[4.5; nan]; [nan; 3]]%float)).
Proof.
  apply (proj2 (proj2 (proj2 (pivot_fails_iff_duplicate sparse_frame)))).
  - reflexivity.
  - cbn. tauto.
  - cbn. tauto.
  - cbn. intuition discriminate.
Defined.

(** * Further properties of the script *)

(** ** Dict lookups *)

Lemma dict_get_raises (d : dict) (k : string) (e : exn) :
  dict_get d k = Raise e -> e = KeyError k /\ ~ In k (map fst d).
Proof.
  revert e. induction d as [|[k' v] d IH]; intros e; cbn [dict_get map fst In].
  - intros [= <-]. tauto.
  - destruct (dict_get d k) as [v'|e'] eqn:E; [discriminate|].
    destruct (String.eqb_spec k k') as [->|Hne]; [discriminate|].
    intros [= <-]. destruct (IH e' eq_refl) as [_ Hnot].
    split; [reflexivity|]. intros [H|H]; [congruence|contradiction].
Qed.

Lemma dict_get_missing (d : dict) (k : string) :
  ~ In k (map fst d) -> dict_get d k = Raise (KeyError k).
Proof.
  intros Hnot. destruct (dict_get d k) as [v|e] eqn:E.
  - apply dict_get_In in E. exfalso. apply Hnot.
    now apply (in_map fst) in E.
  - now destruct (dict_get_raises d k e E) as [-> _].
Qed.

(** X1.  Subscripting a dict literal succeeds exactly on the keys written
    in it: a key that is absent raises KeyError with that key and nothing
    else is ever raised, a pair appended to the literal is what its key then
    yields, and when no key is repeated every key yields the value written
    beside it. *)
Theorem dict_lookup_spec (d : dict) (k : string) :
  (dict_get d k = Raise (KeyError k) <-> ~ In k (map fst d)) /\
  (forall e, dict_get d k = Raise e -> e = KeyError k) /\
  (forall v, dict_get (d ++ [(k, v)]) k = Ok v) /\
  (forall v, NoDup (map fst d) -> In (k, v) d -> dict_get d k = Ok v).
Proof.
  split; [|split; [|split]].
  - split; [|apply dict_get_missing].
    intros H. now destruct (dict_get_raises d k _ H).
  - intros e H. now destruct (dict_get_raises d k e H).
  - intros v. induction d as [|[k' v'] d IH]; cbn [app dict_get].
    + now rewrite String.eqb_refl.
    + now rewrite IH.
  - intros v Hnd Hin. induction d as [|[k' v'] d IH]; [contradiction|].
    cbn [map fst] in Hnd. inversion Hnd as [|? ? Hnot Hnd']; subst.
    cbn [dict_get]. destruct Hin as [[= -> ->]|Hin].
    + rewrite (dict_get_missing d k Hnot). now rewrite String.eqb_refl.
    + now rewrite (IH Hnd' Hin).
Qed.

Lemma dict_lookup_spec_example :
  dict_get person_bias "Zoe" = Raise (KeyError "Zoe") /\
  dict_get person_bias "Frank" = Ok (-0.5)%float.
Proof.
  split.
  - apply (proj1 (dict_lookup_spec person_bias "Zoe")).
    cbn. intuition discriminate.
  - apply (proj2 (proj2 (proj2 (dict_lookup_spec person_bias "Frank")))).
    + repeat constructor; cbn; intuition discriminate.
    + cbn. tauto.
Defined.

(** ** The generator over any tables *)

Section GeneratorFacts.

Context {L : Library}.

Lemma for_each_app {A : Type} (l1 l2 : list A) (body : A -> M unit) (st : state) :
  for_each (l1 ++ l2) body st
  = bind (for_each l1 body) (fun _ => for_each l2 body) st.
Proof.
  revert st. induction l1 as [|x l1 IH]; intros st; cbn [app for_each].
  - reflexivity.
  - unfold bind in *. destruct (body x st) as [[[] st']|e]; [|reflexivity].
    apply IH.
Qed.

(** X2.  Over any tables in which every person has a bias and every
    product a base score, the loop succeeds: it appends, after the records
    already held, one valid rating per pair in person-major order, takes
    exactly |people| x |products| draws from numpy's generator and leaves
    the random module's generator and the files alone. *)
Theorem generate_appends_every_pair (people products : list string) (pbs pb : dict)
    (st : state) :
  Forall (fun person => exists b, dict_get pb person = Ok b) people ->
  Forall (fun product => exists b, dict_get pbs product = Ok b) products ->
  exists records,
    generate people products pbs pb st
    = Ok (tt, mkState (snd (np_draws (List.length people * List.length products)
                                     (np_state st)))
                      (py_state st) (ratings_data st ++ records) (files st)) /\
    map pair_of records = list_prod people products /\
    List.length records = (List.length people * List.length products)%nat /\
    Forall (fun r => valid_rating (Rating r)) records.
Proof.
  intros Hp Hq. destruct (generate_run people products pbs pb Hp Hq st)
    as (records & Hgen & Hrun).
  exists records. split; [exact Hrun|]. split; [|split].
  - exact (generated_pairs _ _ _ _ _ _ Hgen).
  - rewrite (generated_length _ _ _ _ _ _ Hgen). apply length_prod.
  - eapply Forall_impl; [|exact (generated_scale _ _ _ _ _ Hgen)].
    intros r. apply scale_valid.
Qed.

Lemma rate_missing_product pbs pb person product (st : state) :
  ~ In product (map fst pbs) ->
  rate pbs pb person product st = Raise (KeyError product).
Proof.
  intros H. unfold rate, bind, lift. now rewrite (dict_get_missing pbs product H).
Qed.

Lemma rate_missing_person pbs pb person product base_score (st : state) :
  dict_get pbs product = Ok base_score ->
  ~ In person (map fst pb) ->
  rate pbs pb person product st = Raise (KeyError person).
Proof.
  intros Hb H. unfold rate, bind, lift.
  now rewrite Hb, (dict_get_missing pb person H).
Qed.

(** X3.  A product without a base score stops the loop on the first
    person: when the products before it have one and the first person has
    a bias, the loop raises KeyError with that product's name, whatever
    comes after it in either table. *)
Theorem generate_missing_product (person product : string)
    (people before after : list string) (pbs pb : dict) (bias : float) (st : state) :
  dict_get pb person = Ok bias ->
  Forall (fun q => exists b, dict_get pbs q = Ok b) before ->
  ~ In product (map fst pbs) ->
  generate (person :: people) (before ++ product :: after) pbs pb st
  = Raise (KeyError product).
Proof.
  intros Hp Hbefore Hmiss. unfold generate. cbn [for_each]. unfold bind at 1.
  rewrite for_each_app. unfold bind at 1.
  destruct (inner_loop_run pbs pb person bias before Hp Hbefore st)
    as (records & _ & ->).
  cbn [for_each]. unfold bind at 1.
  now rewrite rate_missing_product.
Qed.

(** X4.  A person without a bias stops the loop when their turn comes:
    when the people before them have one, every product has a base score
    and there is at least one product, the loop raises KeyError with that
    person's name. *)
Theorem generate_missing_person (person product : string)
    (before after products : list string) (pbs pb : dict) (st : state) :
  Forall (fun p => exists b, dict_get pb p = Ok b) before ->
  Forall (fun q => exists b, dict_get pbs q = Ok b) (product :: products) ->
  ~ In person (map fst pb) ->
  generate (before ++ person :: after) (product :: products) pbs pb st
  = Raise (KeyError person).
Proof.
  intros Hbefore Hproducts Hmiss. unfold generate. rewrite for_each_app.
  unfold bind at 1.
  destruct (generate_run before (product :: products) pbs pb Hbefore Hproducts st)
    as (records & _ & Hrun).
  unfold generate in Hrun. rewrite Hrun.
  cbn [for_each]. unfold bind at 1 2.
  inversion Hproducts as [|? ? [b Hb] _]; subst.
  now rewrite (rate_missing_person pbs pb person product b).
Qed.

End GeneratorFacts.

Lemma generate_appends_every_pair_example :
  exists records,
    @generate (tape_library sample_tape) ["Ann"; "Ben"] ["Pen"; "Ink"]
      [("Pen", 4.0); ("Ink", 2.5)]%float [("Ann", 0.5); ("Ben", -1.0)]%float
      (@mkState (tape_library sample_tape) sample_tape 0 [] [])
    = Ok (tt, @mkState (tape_library sample_tape) [-7.0; 0.1; 0.2]%float 0 records []) /\
    map pair_of records = [("Ann", "Pen"); ("Ann", "Ink"); ("Ben", "Pen"); ("Ben", "Ink")] /\
    List.length records = 4%nat /\
    Forall (fun r => valid_rating (Rating r)) records.
Proof.
  apply (@generate_appends_every_pair (tape_library sample_tape)
           ["Ann"; "Ben"] ["Pen"; "Ink"]
           [("Pen", 4.0); ("Ink", 2.5)]%float [("Ann", 0.5); ("Ben", -1.0)]%float
           (@mkState (tape_library sample_tape) sample_tape 0 [] [])).
  - repeat constructor; eexists; reflexivity.
  - repeat constructor; eexists; reflexivity.
Defined.

Lemma generate_missing_product_example :
  @generate (tape_library sample_tape) ["Ann"; "Ben"] ["Pen"; "Cap"; "Ink"]
    [("Pen", 4.0); ("Ink", 2.5)]%float [("Ann", 0.5)]%float fresh_state
  = Raise (KeyError "Cap").
Proof.
  apply (@generate_missing_product (tape_library sample_tape)
           "Ann" "Cap" ["Ben"] ["Pen"] ["Ink"]
           [("Pen", 4.0); ("Ink", 2.5)]%float [("Ann", 0.5)]%float 0.5%float fresh_state).
  - reflexivity.
  - repeat constructor; eexists; reflexivity.
  - cbn. intuition discriminate.
Defined.

Lemma generate_missing_person_example :
  @generate (tape_library sample_tape) ["Ann"; "Zoe"; "Ben"] ["Pen"; "Ink"]
    [("Pen", 4.0); ("Ink", 2.5)]%float [("Ann", 0.5); ("Ben", -1.0)]%float fresh_state
  = Raise (KeyError "Zoe").
Proof.
  apply (@generate_missing_person (tape_library sample_tape)
           "Zoe" "Pen" ["Ann"] ["Ben"] ["Ink"]
           [("Pen", 4.0); ("Ink", 2.5)]%float [("Ann", 0.5); ("Ben", -1.0)]%float
           fresh_state).
  - repeat constructor; eexists; reflexivity.
  - repeat constructor; eexists; reflexivity.
  - cbn. intuition discriminate.
Defined.

(** ** The rating at the ends of the scale *)

Lemma SFadd_nan_l (y : spec_float) : SF64add S754_nan y = S754_nan.
Proof. now destruct y. Qed.

Lemma SFadd_nan_r (x : spec_float) : SF64add x S754_nan = S754_nan.
Proof. now destruct x. Qed.

Lemma rating_of_nan (raw : float) :
  Prim2SF raw = S754_nan -> quantize (clamp (Py.Float raw)) = Ok 5%float.
Proof.
  intros H. unfold clamp, Py.min, Py.max. cbn [Py.lt]. rewrite H. reflexivity.
Qed.

Lemma leb_5_exact (f : float) :
  PrimFloat.leb 5 f
  = match Py.SFcompare_Z (Prim2SF f) 5 with Some (Gt | Eq) => true | _ => false end.
Proof.
  rewrite leb_spec. unfold SFleb.
  rewrite (SFcompare_antisym (Prim2SF f) (Prim2SF 5)), SFcompare_5.
  destruct (Py.SFcompare_Z (Prim2SF f) 5) as [[| |]|]; reflexivity.
Qed.

Lemma leb_1_exact (f : float) :
  PrimFloat.leb f 1
  = match Py.SFcompare_Z (Prim2SF f) 1 with Some (Lt | Eq) => true | _ => false end.
Proof. rewrite leb_spec. unfold SFleb. now rewrite SFcompare_1. Qed.

Lemma ltb_lt_5_exact (f : float) :
  PrimFloat.ltb f 5
  = match Py.SFcompare_Z (Prim2SF f) 5 with Some Lt => true | _ => false end.
Proof. rewrite ltb_spec. unfold SFltb. now rewrite SFcompare_5. Qed.

Lemma ltb_gt_1_exact (f : float) :
  PrimFloat.ltb 1 f
  = match Py.SFcompare_Z (Prim2SF f) 1 with Some Gt => true | _ => false end.
Proof.
  rewrite ltb_spec. unfold SFltb.
  rewrite (SFcompare_antisym (Prim2SF f) (Prim2SF 1)), SFcompare_1.
  destruct (Py.SFcompare_Z (Prim2SF f) 1) as [[| |]|]; reflexivity.
Qed.

Lemma rating_saturates_high (raw : float) :
  PrimFloat.leb 5 raw = true -> quantize (clamp (Py.Float raw)) = Ok 5%float.
Proof.
  rewrite leb_5_exact. intros H. unfold clamp, Py.min, Py.max. cbn [Py.lt].
  destruct (Py.SFcompare_Z (Prim2SF raw) 5) as [[| |]|]; try discriminate; reflexivity.
Qed.

Lemma rating_saturates_low (raw : float) :
  PrimFloat.leb raw 1 = true -> quantize (clamp (Py.Float raw)) = Ok 1%float.
Proof.
  rewrite leb_1_exact. intros H. unfold clamp, Py.min, Py.max. cbn [Py.lt].
  destruct (Py.SFcompare_Z (Prim2SF raw) 1) as [[| |]|] eqn:H1; try discriminate.
  - apply SFcompare_Z_Eq_1 in H1. subst raw. reflexivity.
  - rewrite (SFcompare_Z_mono _ 1 5 ltac:(lia) H1). cbn [Py.gt]. rewrite H1. reflexivity.
Qed.

(** X5.  A NaN among base quality, bias and noise is not rejected: the
    comparisons of [min] and [max] are all false on it, the bound 5 is kept,
    and the rating is 5.0. *)
Theorem nan_is_rated_five (base_score bias noise : float) :
  is_nan base_score = true \/ is_nan bias = true \/ is_nan noise = true ->
  compute_rating base_score bias noise = Ok 5%float.
Proof.
  intros H. unfold compute_rating. apply rating_of_nan.
  rewrite add_spec, add_spec.
  destruct H as [H|[H|H]]; apply Prim2SF_nan in H; rewrite H.
  - rewrite (SFadd_nan_l (Prim2SF bias)). apply SFadd_nan_l.
  - rewrite (SFadd_nan_r (Prim2SF base_score)). apply SFadd_nan_l.
  - apply SFadd_nan_r.
Qed.

Lemma nan_is_rated_five_example : compute_rating 3.0 0.0 nan = Ok 5%float.
Proof. apply nan_is_rated_five. right. right. reflexivity. Defined.

(** X6.  The scale saturates: a raw score of 5 or more, infinite ones
    included, is rated exactly 5.0 and a raw score of 1 or less exactly
    1.0. *)
Theorem rating_saturates (base_score bias noise : float) :
  (PrimFloat.leb 5 (base_score + bias + noise) = true ->
   compute_rating base_score bias noise = Ok 5%float) /\
  (PrimFloat.leb (base_score + bias + noise) 1 = true ->
   compute_rating base_score bias noise = Ok 1%float).
Proof.
  unfold compute_rating. split.
  - apply rating_saturates_high.
  - apply rating_saturates_low.
Qed.

Lemma rating_saturates_example :
  compute_rating 4.2 0.8 infinity = Ok 5%float /\
  compute_rating 3.0 (-0.5) (-1.75) = Ok 1%float.
Proof.
  split.
  - apply (proj1 (rating_saturates 4.2 0.8 infinity)). reflexivity.
  - apply (proj2 (rating_saturates 3.0 (-0.5) (-1.75))). reflexivity.
Defined.

(** X7.  Ratings are fixed points: clamping and quantizing a rating the
    script has computed gives that rating back. *)
Theorem rating_is_fixed_point (base_score bias noise : float) :
  exists rating,
    compute_rating base_score bias noise = Ok rating /\
    quantize (clamp (Py.Float rating)) = Ok rating.
Proof.
  destruct (compute_rating_scale base_score bias noise) as (r & Hr & Hin).
  exists r. split; [assumption|].
  unfold rating_scale in Hin. cbn [In] in Hin.
  repeat (destruct Hin as [<- | Hin]); [..|contradiction]; reflexivity.
Qed.

(** ** Rounding to the nearest half step *)

(** Below exponent 0, [round_half_even] picks an integer nearest to
    [m * 2^e], the even one of two. *)
Lemma round_half_even_nearest (m : positive) (e : Z) :
  e < 0 ->
  2 * Z.abs (Py.round_half_even m e * 2 ^ (- e) - Zpos m) <= 2 ^ (- e) /\
  (2 * Z.abs (Py.round_half_even m e * 2 ^ (- e) - Zpos m) = 2 ^ (- e) ->
   Z.even (Py.round_half_even m e) = true).
Proof.
  intros He. unfold Py.round_half_even.
  assert (E : (0 <=? e) = false) by (apply Z.leb_gt; lia). rewrite E.
  assert (Hd : 0 < 2 ^ (- e)) by (apply Z.pow_pos_nonneg; lia).
  set (d := 2 ^ (- e)) in *.
  pose proof (Z.div_mod (Zpos m) d ltac:(lia)) as Hdm.
  pose proof (Z.mod_pos_bound (Zpos m) d Hd) as Hr.
  set (q := Zpos m / d) in *. set (r := Zpos m mod d) in *.
  destruct (Z.compare_spec (2 * r) d) as [Heq|Hlt|Hgt].
  - destruct (Z.even q) eqn:Ev.
    + split; [nia|auto].
    + split; [nia|]. intros _. rewrite Z.even_add, Ev. reflexivity.
  - split; [nia|]. intros H. exfalso. nia.
  - split; [nia|]. intros H. exfalso. nia.
Qed.

Lemma between_floats (raw : float) :
  PrimFloat.ltb 1 raw = true -> PrimFloat.ltb raw 5 = true ->
  Py.SFcompare_Z (Prim2SF raw) 5 = Some Lt /\ Py.SFcompare_Z (Prim2SF raw) 1 = Some Gt.
Proof.
  rewrite ltb_gt_1_exact, ltb_lt_5_exact.
  destruct (Py.SFcompare_Z (Prim2SF raw) 5) as [[| |]|],
    (Py.SFcompare_Z (Prim2SF raw) 1) as [[| |]|]; try discriminate; auto.
Qed.

(** Inside the scale the rating is [k] halves for the [k] that rounding
    the doubled mantissa yields. *)
Lemma rating_between (raw : float) :
  PrimFloat.ltb 1 raw = true -> PrimFloat.ltb raw 5 = true ->
  exists m e r,
    Prim2SF raw = S754_finite false m e /\
    digits2_pos m = 53%positive /\
    (e = -52 \/ e = -51 \/ e = -50) /\
    2 <= Py.round_half_even m (e + 1) <= 10 /\
    Py.truediv (Py.Int (Py.round_half_even m (e + 1))) (Py.Int 2) = Ok r /\
    quantize (clamp (Py.Float raw)) = Ok r.
Proof.
  intros H1 H5. destruct (between_floats raw H1 H5) as [C5 C1].
  destruct (between_1_5 _ (Prim2SF_valid raw) C5 C1) as (m & e & Hx & Hd & He & Hm).
  pose proof (round_half_even_bounds m e He Hm) as Hk.
  destruct (truediv_scale _ Hk) as (r & Hr & _).
  exists m, e, r. repeat split; try assumption; try lia.
  unfold clamp, Py.min, Py.max. cbn [Py.lt]. rewrite C5. cbn [Py.gt]. rewrite C1.
  unfold quantize. cbn [Py.mul]. rewrite float_of_int_2. cbn [rbind Py.round].
  rewrite mul_spec, Hx, Prim2SF_2, (SFmul_two m e Hd He). cbn [cond_Zopp]. exact Hr.
Qed.

Lemma float_Q_halves (k : Z) (r : float) :
  2 <= k <= 10 -> Py.truediv (Py.Int k) (Py.Int 2) = Ok r ->
  halves r = k /\
  exists n p, float_Q r = QArith_base.Qmake n p /\ 2 * n = k * Zpos p.
Proof.
  intros Hk Hr.
  assert (C : k = 2 \/ k = 3 \/ k = 4 \/ k = 5 \/ k = 6 \/ k = 7 \/ k = 8 \/ k = 9 \/ k = 10)
    by lia.
  clear Hk.
  repeat (destruct C as [-> | C]); try subst k; injection Hr as <-;
    (split; [reflexivity|]);
    do 2 eexists; (split; [vm_compute; reflexivity|reflexivity]).
Qed.

Lemma float_Q_fraction (raw : float) (m : positive) (e : Z) :
  Prim2SF raw = S754_finite false m e -> e < 0 ->
  exists p, float_Q raw = QArith_base.Qmake (Zpos m) p /\ Zpos p = 2 ^ (- e).
Proof.
  intros Hx He. unfold float_Q. rewrite Hx. cbn [cond_Zopp].
  assert (E : (0 <=? e) = false) by (apply Z.leb_gt; lia). rewrite E.
  eexists. split; [reflexivity|].
  apply Z2Pos.id. apply Z.pow_pos_nonneg; lia.
Qed.

(** X8.  Strictly inside the scale the rating is a half step nearest to
    the raw score: it differs from it by at most 0.25, exactly, and when it
    is 0.25 away (the raw score is midway between two half steps) it is the
    one with an even number of halves. *)
Theorem rating_within_quarter (base_score bias noise : float) :
  PrimFloat.ltb 1 (base_score + bias + noise) = true ->
  PrimFloat.ltb (base_score + bias + noise) 5 = true ->
  exists rating,
    compute_rating base_score bias noise = Ok rating /\
    within_quarter (base_score + bias + noise) rating /\
    (quarter_away (base_score + bias + noise) rating -> Z.even (halves rating) = true).
Proof.
  intros H1 H5. unfold compute_rating.
  set (raw := (base_score + bias + noise)%float) in *.
  destruct (rating_between raw H1 H5) as (m & e & r & Hx & Hd & He & Hk & Hr & Hq).
  exists r. split; [exact Hq|].
  destruct (round_half_even_nearest m (e + 1) ltac:(lia)) as [Hnear Htie].
  destruct (float_Q_halves _ r Hk Hr) as (Hh & n & p & Er & Hn).
  destruct (float_Q_fraction raw m e Hx ltac:(lia)) as (pd & Eraw & Hpd).
  rewrite Hh. set (k := Py.round_half_even m (e + 1)) in *. clearbody k.
  assert (HD : 2 ^ (- e) = 2 * 2 ^ (- (e + 1))).
  { replace (- e) with (Z.succ (- (e + 1))) by lia. apply Z.pow_succ_r. lia. }
  assert (Hd0 : 0 < 2 ^ (- (e + 1))) by (apply Z.pow_pos_nonneg; lia).
  set (d := 2 ^ (- (e + 1))) in *. rewrite HD in Hpd.
  unfold within_quarter, quarter_away. rewrite Er, Eraw.
  unfold QArith_base.Qle, QArith_base.Qeq, QArith_base.Qminus, QArith_base.Qplus,
    QArith_base.Qopp.
  cbn [QArith_base.Qnum QArith_base.Qden].
  rewrite !Pos2Z.inj_mul, Hpd.
  set (P := Zpos p) in *. assert (0 < P) by (unfold P; lia).
  set (M := Zpos m) in *. set (kd := k * d) in *.
  assert (Hinv : 2 * n * d = kd * P) by (unfold kd; nia).
  clearbody kd P M.
  split; [split|].
  - nia.
  - nia.
  - intros T. apply Htie. destruct T as [T|T]; nia.
Qed.

Lemma rating_within_quarter_example :
  exists rating,
    compute_rating 3.0 0.5 0.25 = Ok rating /\
    within_quarter (3.0 + 0.5 + 0.25) rating /\
    (quarter_away (3.0 + 0.5 + 0.25) rating -> Z.even (halves rating) = true).
Proof. apply (rating_within_quarter 3.0 0.5 0.25); reflexivity. Defined.

(** ** Ratings follow the order of raw scores *)

Lemma SFltb_leb_trans (x y z : spec_float) :
  SFltb x y = true -> SFleb y z = true -> SFltb x z = true.
Proof.
  unfold SFltb, SFleb.
  destruct x as [sx | sx | | sx mx ex], y as [sy | sy | | sy my ey],
    z as [sz | sz | | sz mz ez]; cbn [SFcompare]; try discriminate; try reflexivity;
    try (destruct sx; try discriminate; try reflexivity);
    try (destruct sy; try discriminate; try reflexivity);
    try (destruct sz; try discriminate; try reflexivity).
  all: rewrite ?Pos.compare_cont_spec; cbn [Pos.switch_Eq CompOpp].
  all: destruct (Z.compare_spec ex ey), (Z.compare_spec ey ez), (Z.compare_spec ex ez);
    try discriminate; try reflexivity; try lia.
  all: subst; destruct (Pos.compare_spec mx my), (Pos.compare_spec my mz),
    (Pos.compare_spec mx mz); cbn [CompOpp]; try discriminate; try reflexivity; try lia.
Qed.

Lemma SFleb_ltb_trans (x y z : spec_float) :
  SFleb x y = true -> SFltb y z = true -> SFltb x z = true.
Proof.
  unfold SFltb, SFleb.
  destruct x as [sx | sx | | sx mx ex], y as [sy | sy | | sy my ey],
    z as [sz | sz | | sz mz ez]; cbn [SFcompare]; try discriminate; try reflexivity;
    try (destruct sx; try discriminate; try reflexivity);
    try (destruct sy; try discriminate; try reflexivity);
    try (destruct sz; try discriminate; try reflexivity).
  all: rewrite ?Pos.compare_cont_spec; cbn [Pos.switch_Eq CompOpp].
  all: destruct (Z.compare_spec ex ey), (Z.compare_spec ey ez), (Z.compare_spec ex ez);
    try discriminate; try reflexivity; try lia.
  all: subst; destruct (Pos.compare_spec mx my), (Pos.compare_spec my mz),
    (Pos.compare_spec mx mz); cbn [CompOpp]; try discriminate; try reflexivity; try lia.
Qed.

Lemma ltb_leb_trans (x y z : float) :
  PrimFloat.ltb x y = true -> PrimFloat.leb y z = true -> PrimFloat.ltb x z = true.
Proof. rewrite !ltb_spec, leb_spec. apply SFltb_leb_trans. Qed.

Lemma leb_ltb_trans (x y z : float) :
  PrimFloat.leb x y = true -> PrimFloat.ltb y z = true -> PrimFloat.ltb x z = true.
Proof. rewrite !ltb_spec, leb_spec. apply SFleb_ltb_trans. Qed.

Lemma SFleb_normal (m1 m2 : positive) (e1 e2 : Z) :
  SFleb (S754_finite false m1 e1) (S754_finite false m2 e2) = true ->
  e1 < e2 \/ (e1 = e2 /\ Zpos m1 <= Zpos m2).
Proof.
  unfold SFleb. cbn [SFcompare]. rewrite Pos.compare_cont_spec. cbn [Pos.switch_Eq].
  destruct (Z.compare_spec e1 e2); try discriminate; [|lia].
  destruct (Pos.compare_spec m1 m2); try discriminate; lia.
Qed.

Lemma round_half_even_monotone (m1 m2 : positive) (e1 e2 : Z) :
  digits2_pos m1 = 53%positive -> digits2_pos m2 = 53%positive ->
  e1 = -52 \/ e1 = -51 \/ e1 = -50 ->
  e2 = -52 \/ e2 = -51 \/ e2 = -50 ->
  e1 < e2 \/ (e1 = e2 /\ Zpos m1 <= Zpos m2) ->
  Py.round_half_even m1 (e1 + 1) <= Py.round_half_even m2 (e2 + 1).
Proof.
  intros Hd1 Hd2 He1 He2 Hle.
  pose proof (digits2_pos_bounds m1) as B1. pose proof (digits2_pos_bounds m2) as B2.
  rewrite Hd1 in B1. rewrite Hd2 in B2.
  change (2 ^ (53 - 1)) with 4503599627370496 in B1, B2.
  change (2 ^ 53) with 9007199254740992 in B1, B2.
  destruct (round_half_even_nearest m1 (e1 + 1) ltac:(lia)) as [N1 T1].
  destruct (round_half_even_nearest m2 (e2 + 1) ltac:(lia)) as [N2 T2].
  set (k1 := Py.round_half_even m1 (e1 + 1)) in *.
  set (k2 := Py.round_half_even m2 (e2 + 1)) in *.
  clearbody k1 k2.
  set (d1 := 2 ^ (- (e1 + 1))) in *. set (d2 := 2 ^ (- (e2 + 1))) in *.
  assert (V1 : (e1 = -52 /\ d1 = 2251799813685248) \/ (e1 = -51 /\ d1 = 1125899906842624)
               \/ (e1 = -50 /\ d1 = 562949953421312)).
  { unfold d1. destruct He1 as [-> | [-> | ->]]; [left|right; left|right; right];
      split; reflexivity. }
  assert (V2 : (e2 = -52 /\ d2 = 2251799813685248) \/ (e2 = -51 /\ d2 = 1125899906842624)
               \/ (e2 = -50 /\ d2 = 562949953421312)).
  { unfold d2. destruct He2 as [-> | [-> | ->]]; [left|right; left|right; right];
      split; reflexivity. }
  clearbody d1 d2. clear He1 He2.
  destruct (Z_le_gt_dec k1 k2) as [|Hgt]; [assumption|exfalso].
  assert (Ev : Z.even k1 = true /\ Z.even k2 = true).
  { split; [apply T1|apply T2];
      destruct V1 as [[-> ->] | [[-> ->] | [-> ->]]],
               V2 as [[-> ->] | [[-> ->] | [-> ->]]]; lia. }
  destruct Ev as [Ev1 Ev2].
  apply Z.even_spec in Ev1 as [c1 ->]. apply Z.even_spec in Ev2 as [c2 ->].
  destruct V1 as [[-> ->] | [[-> ->] | [-> ->]]],
           V2 as [[-> ->] | [[-> ->] | [-> ->]]]; lia.
Qed.

Lemma truediv_monotone (k1 k2 : Z) (r1 r2 : float) :
  2 <= k1 -> k1 <= k2 -> k2 <= 10 ->
  Py.truediv (Py.Int k1) (Py.Int 2) = Ok r1 ->
  Py.truediv (Py.Int k2) (Py.Int 2) = Ok r2 ->
  PrimFloat.leb r1 r2 = true.
Proof.
  intros H1 H12 H2.
  assert (C1 : k1 = 2 \/ k1 = 3 \/ k1 = 4 \/ k1 = 5 \/ k1 = 6 \/ k1 = 7 \/ k1 = 8
               \/ k1 = 9 \/ k1 = 10) by lia.
  assert (C2 : k2 = 2 \/ k2 = 3 \/ k2 = 4 \/ k2 = 5 \/ k2 = 6 \/ k2 = 7 \/ k2 = 8
               \/ k2 = 9 \/ k2 = 10) by lia.
  repeat (destruct C1 as [-> | C1]); try subst k1;
    repeat (destruct C2 as [-> | C2]); try subst k2;
    try lia; intros [= <-] [= <-]; reflexivity.
Qed.

Lemma scale_bounds (r : float) :
  In r rating_scale -> PrimFloat.leb 1 r = true /\ PrimFloat.leb r 5 = true.
Proof.
  unfold rating_scale. cbn [In]. intros H.
  repeat (destruct H as [<- | H]); [..|contradiction]; split; reflexivity.
Qed.

(** X9.  Ratings follow the order of raw scores: of two pairs, the one
    whose raw score (base quality plus bias plus noise) is no lower never
    gets the lower rating. *)
Theorem rating_monotone (base1 bias1 noise1 base2 bias2 noise2 : float) :
  PrimFloat.leb (base1 + bias1 + noise1) (base2 + bias2 + noise2) = true ->
  exists rating1 rating2,
    compute_rating base1 bias1 noise1 = Ok rating1 /\
    compute_rating base2 bias2 noise2 = Ok rating2 /\
    PrimFloat.leb rating1 rating2 = true.
Proof.
  unfold compute_rating.
  set (raw1 := (base1 + bias1 + noise1)%float).
  set (raw2 := (base2 + bias2 + noise2)%float).
  intros Hle.
  destruct (leb_not_nan _ _ Hle) as [Hn1 Hn2].
  assert (S1 : exists r1, quantize (clamp (Py.Float raw1)) = Ok r1 /\ In r1 rating_scale).
  { destruct (clamp_cases raw1) as [-> | [-> | (-> & H5 & H1)]].
    - rewrite quantize_int. apply truediv_scale. lia.
    - rewrite quantize_int. apply truediv_scale. lia.
    - destruct (quantize_between _ H5 H1) as (k & Hk & ->). now apply truediv_scale. }
  assert (S2 : exists r2, quantize (clamp (Py.Float raw2)) = Ok r2 /\ In r2 rating_scale).
  { destruct (clamp_cases raw2) as [-> | [-> | (-> & H5 & H1)]].
    - rewrite quantize_int. apply truediv_scale. lia.
    - rewrite quantize_int. apply truediv_scale. lia.
    - destruct (quantize_between _ H5 H1) as (k & Hk & ->). now apply truediv_scale. }
  destruct S1 as (r1 & Q1 & In1). destruct S2 as (r2 & Q2 & In2).
  exists r1, r2. split; [assumption|]. split; [assumption|].
  destruct (PrimFloat.ltb raw2 5) eqn:L5.
  2:{ apply (not_ltb_leb raw2 5 Hn2 eq_refl) in L5.
      rewrite (rating_saturates_high raw2 L5) in Q2. injection Q2 as <-.
      now apply scale_bounds. }
  destruct (PrimFloat.ltb 1 raw1) eqn:L1.
  2:{ apply (not_ltb_leb 1 raw1 eq_refl Hn1) in L1.
      rewrite (rating_saturates_low raw1 L1) in Q1. injection Q1 as <-.
      now apply scale_bounds. }
  pose proof (leb_ltb_trans _ _ _ Hle L5) as L5'.
  pose proof (ltb_leb_trans _ _ _ L1 Hle) as L1'.
  destruct (rating_between raw1 L1 L5') as (m1 & e1 & s1 & X1 & D1 & E1 & K1 & T1 & R1).
  destruct (rating_between raw2 L1' L5) as (m2 & e2 & s2 & X2 & D2 & E2 & K2 & T2 & R2).
  assert (s1 = r1) by congruence. assert (s2 = r2) by congruence. subst s1 s2.
  rewrite leb_spec, X1, X2 in Hle. apply SFleb_normal in Hle.
  pose proof (round_half_even_monotone m1 m2 e1 e2 D1 D2 E1 E2 Hle).
  eapply truediv_monotone; eauto; lia.
Qed.

Lemma rating_monotone_example :
  exists rating1 rating2,
    compute_rating 3.0 (-0.2) 0.1 = Ok rating1 /\
    compute_rating 3.5 0.3 (-0.35) = Ok rating2 /\
    PrimFloat.leb rating1 rating2 = true.
Proof. apply (rating_monotone 3.0 (-0.2) 0.1 3.5 0.3 (-0.35)). reflexivity. Defined.

(** ** Labels *)

Lemma ltb_trans (x y z : float) :
  PrimFloat.ltb x y = true -> PrimFloat.ltb y z = true -> PrimFloat.ltb x z = true.
Proof. intros H1 H2. apply (ltb_leb_trans x y z H1). now apply ltb_leb. Qed.

(** X10.  Labels follow the order of means: when one mean is no greater
    than another, its tendency and its quality label are no better.  A
    generous or excellent mean stays so upwards, a harsh or poor one
    downwards, and good and average move at most to their neighbours. *)
Theorem labels_follow_order (a b : float) :
  PrimFloat.leb a b = true ->
  (tendency a = "generous" -> tendency b = "generous") /\
  (tendency b = "harsh" -> tendency a = "harsh") /\
  (quality a = "excellent" -> quality b = "excellent") /\
  (quality a = "good" -> quality b = "good" \/ quality b = "excellent") /\
  (quality b = "average" -> quality a = "average" \/ quality a = "poor") /\
  (quality b = "poor" -> quality a = "poor").
Proof.
  intros Hle.
  assert (U : forall t, PrimFloat.ltb t a = true -> PrimFloat.ltb t b = true)
    by (intros t H; exact (ltb_leb_trans t a b H Hle)).
  assert (D : forall t, PrimFloat.ltb b t = true -> PrimFloat.ltb a t = true)
    by (intros t H; exact (leb_ltb_trans a b t Hle H)).
  pose proof (U 3.5%float) as U35. pose proof (U 4.0%float) as U40.
  pose proof (U 3.0%float) as U30. pose proof (D 3.0%float) as D30.
  unfold tendency, quality.
  destruct (PrimFloat.ltb 3.5 a), (PrimFloat.ltb 3.5 b),
    (PrimFloat.ltb 4.0 a), (PrimFloat.ltb 4.0 b),
    (PrimFloat.ltb 3.0 a), (PrimFloat.ltb 3.0 b),
    (PrimFloat.ltb a 3.0), (PrimFloat.ltb b 3.0);
    try (specialize (U35 eq_refl)); try (specialize (U40 eq_refl));
    try (specialize (U30 eq_refl)); try (specialize (D30 eq_refl));
    try discriminate; repeat split; intros; try discriminate; auto.
Qed.

Lemma labels_follow_order_example :
  (tendency 3.6 = "generous" -> tendency 4.1 = "generous") /\
  (tendency 4.1 = "harsh" -> tendency 3.6 = "harsh") /\
  (quality 3.6 = "excellent" -> quality 4.1 = "excellent") /\
  (quality 3.6 = "good" -> quality 4.1 = "good" \/ quality 4.1 = "excellent") /\
  (quality 4.1 = "average" -> quality 3.6 = "average" \/ quality 3.6 = "poor") /\
  (quality 4.1 = "poor" -> quality 3.6 = "poor").
Proof. apply (labels_follow_order 3.6 4.1). reflexivity. Defined.

(** X11.  The two labellings agree on every mean: it is generous exactly
    when it is excellent or good (both mean above 3.5), and a harsh mean
    (below 3.0) is always poor. *)
Theorem labels_agree (avg : float) :
  (tendency avg = "generous" <-> quality avg = "excellent" \/ quality avg = "good") /\
  (tendency avg = "harsh" -> quality avg = "poor").
Proof.
  assert (T1 : PrimFloat.ltb 4.0 avg = true -> PrimFloat.ltb 3.5 avg = true)
    by (apply ltb_trans; reflexivity).
  assert (T2 : PrimFloat.ltb 3.0 avg = true -> PrimFloat.ltb avg 3.0 = true -> False).
  { intros H1 H2. pose proof (ltb_trans _ _ _ H1 H2) as H. discriminate H. }
  unfold tendency, quality.
  destruct (PrimFloat.ltb 3.5 avg), (PrimFloat.ltb 4.0 avg),
    (PrimFloat.ltb 3.0 avg), (PrimFloat.ltb avg 3.0);
    try (specialize (T1 eq_refl)); try (specialize (T2 eq_refl eq_refl));
    try discriminate; try contradiction;
    (split; [split|]); intros; try discriminate; auto;
    repeat match goal with H : _ \/ _ |- _ => destruct H end; try discriminate.
Qed.

(** ** The matrix view *)

Lemma string_ltb_leb (a b : string) : String.ltb a b = true -> String.leb a b = true.
Proof. unfold String.ltb, String.leb. destruct (String.compare a b); congruence. Qed.

Lemma string_not_ltb_leb (a b : string) : String.ltb a b = false -> String.leb b a = true.
Proof.
  unfold String.ltb, String.leb. rewrite (String.compare_antisym b a).
  destruct (String.compare a b); cbn; congruence.
Qed.

Lemma sorted_unique_Sorted (l : list string) :
  Sorted (fun a b => String.leb a b = true) (sorted_unique l).
Proof.
  unfold sorted_unique.
  apply (insertion_sort_Sorted String.ltb (fun _ => True)).
  - intros a b _ _. apply string_ltb_leb.
  - intros a b _ _. apply string_not_ltb_leb.
  - apply Forall_forall. auto.
Qed.

(** X12.  On a non-empty frame without a repeated pair the matrix view has
    the people of the frame as its rows and the products as its columns,
    each once and in ascending order; it is rectangular; and every record's
    rating stands in the row of its person and the column of its product. *)
Theorem pivot_table_layout (df : DataFrame) :
  df <> [] -> NoDup (map pair_of df) ->
  exists t,
    pivot df = Ok t /\
    Sorted (fun a b => String.leb a b = true) (index_labels t) /\
    Sorted (fun a b => String.leb a b = true) (column_labels t) /\
    NoDup (index_labels t) /\ NoDup (column_labels t) /\
    (forall person, In person (index_labels t) <-> In person (map Person df)) /\
    (forall product, In product (column_labels t) <-> In product (map Product df)) /\
    List.length (cells t) = List.length (index_labels t) /\
    Forall (fun row => List.length row = List.length (column_labels t)) (cells t) /\
    (forall r, In r df ->
       exists i j,
         nth_error (index_labels t) i = Some (Person r) /\
         nth_error (column_labels t) j = Some (Product r) /\
         nth_error (nth i (cells t) []) j = Some (Rating r)).
Proof.
  intros Hne Hnd. rewrite (pivot_ok df Hne Hnd). eexists. split; [reflexivity|].
  cbn [index_labels column_labels cells].
  repeat split; try apply sorted_unique_Sorted; try apply sorted_unique_NoDup;
    try apply sorted_unique_In.
  - now rewrite length_map.
  - apply Forall_map, Forall_forall. intros p _. now rewrite length_map.
  - intros r Hr.
    assert (Hp : In (Person r) (sorted_unique (map Person df)))
      by (apply sorted_unique_In; now apply in_map).
    assert (Hq : In (Product r) (sorted_unique (map Product df)))
      by (apply sorted_unique_In; now apply in_map).
    apply In_nth_error in Hp as [i Hi]. apply In_nth_error in Hq as [j Hj].
    exists i, j. split; [assumption|]. split; [assumption|].
    rewrite <- (cell_found df r Hnd Hr).
    set (f := fun p => map (fun q => cell df p q) (sorted_unique (map Product df))).
    assert (E : nth i (map f (sorted_unique (map Person df))) [] = f (Person r)).
    { apply nth_error_nth. now rewrite nth_error_map, Hi. }
    rewrite E. unfold f. now rewrite nth_error_map, Hj.
Qed.

Lemma pivot_table_layout_example :
  exists t,
    pivot full_frame = Ok t /\
    Sorted (fun a b => String.leb a b = true) (index_labels t) /\
    Sorted (fun a b => String.leb a b = true) (column_labels t) /\
    NoDup (index_labels t) /\ NoDup (column_labels t) /\
    (forall person, In person (index_labels t) <-> In person (map Person full_frame)) /\
    (forall product, In product (column_labels t) <-> In product (map Product full_frame)) /\
    List.length (cells t) = List.length (index_labels t) /\
    Forall (fun row => List.length row = List.length (column_labels t)) (cells t) /\
    (forall r, In r full_frame ->
       exists i j,
         nth_error (index_labels t) i = Some (Person r) /\
         nth_error (column_labels t) j = Some (Product r) /\
         nth_error (nth i (cells t) []) j = Some (Rating r)).
Proof.
  apply (pivot_table_layout full_frame).
  - discriminate.
  - repeat constructor; cbn; intuition discriminate.
Defined.

(** ** Means stay within the scale *)

Lemma all_means_bounded : forallb means_bounded (Z_upto 50 1) = true.
Proof. vm_compute. reflexivity. Qed.

Lemma sum_halves_bounds (vals : list float) :
  Forall (fun v => In v rating_scale) vals ->
  2 * Z.of_nat (List.length vals) <= fold_right Z.add 0 (map halves vals)
  <= 10 * Z.of_nat (List.length vals).
Proof.
  induction 1 as [|v vals Hv _ IH]; [cbn; lia|].
  destruct (scale_halves v Hv) as [_ Hk].
  cbn [List.length map fold_right]. rewrite Nat2Z.inj_succ. lia.
Qed.

Lemma exact_mean_in_scale (vals : list float) :
  Forall (fun v => In v rating_scale) vals ->
  vals <> [] -> (List.length vals <= 50)%nat ->
  PrimFloat.leb 1 (exact_mean vals) = true /\ PrimFloat.leb (exact_mean vals) 5 = true.
Proof.
  intros Hs Hne Hl. pose proof (sum_halves_bounds vals Hs) as B.
  unfold exact_mean. cbv zeta.
  set (n := Z.of_nat (List.length vals)) in *.
  set (total := fold_right Z.add 0 (map halves vals)) in *.
  assert (Hn : 1 <= n <= 50).
  { unfold n. destruct vals; [congruence|cbn [List.length] in *; lia]. }
  clearbody n total.
  pose proof all_means_bounded as T. rewrite forallb_forall in T.
  specialize (T n (Z_upto_In 50 1 n ltac:(lia))).
  unfold means_bounded in T. rewrite forallb_forall in T.
  specialize (T total (Z_upto_In (Z.to_nat (8 * n + 1)) (2 * n) total ltac:(lia))).
  unfold mean_bounded in T. now apply andb_prop in T.
Qed.

Lemma summary_means_in_scale (key : rating_record -> string) (label : float -> string)
    (df : DataFrame) (lines : list (string * float * string)) :
  summary_of key label df lines ->
  Forall (fun r => In (Rating r) rating_scale) df ->
  (List.length df <= 50)%nat ->
  Forall mean_in_scale lines.
Proof.
  intros (Hperm & Hmean & _) Hs Hl. rewrite Forall_forall in Hmean.
  apply Forall_forall. intros l Hin. destruct (Hmean l Hin) as [E _].
  unfold mean_in_scale. rewrite E.
  pose proof (group_values_length key (fst (fst l)) df).
  apply exact_mean_in_scale; [now apply group_values_scale| |lia].
  apply group_values_nonempty. apply (proj1 (sorted_unique_In _ _)).
  apply (Permutation_in _ Hperm).
  now apply (in_map (fun l : string * float * string => fst (fst l))).
Qed.

(** X13.  Means stay within the scale: in every run each person's and each
    product's mean lies in [1.0, 5.0], and so does every mean of the
    summaries of a frame of at most 50 half-step ratings, which has both
    summaries unless it is empty. *)
Theorem means_within_scale :
  (forall (L : Library) (st : state),
      exists rep st',
        main st = Ok (rep, st') /\
        Forall mean_in_scale (shown_person_avg rep) /\
        Forall mean_in_scale (shown_product_avg rep)) /\
  (forall df : DataFrame,
      df <> [] ->
      Forall (fun r => In (Rating r) rating_scale) df ->
      (List.length df <= 50)%nat ->
      exists persons prods,
        person_summary df = Ok persons /\ product_summary df = Ok prods /\
        Forall mean_in_scale persons /\ Forall mean_in_scale prods).
Proof.
  assert (G : forall df : DataFrame,
             df <> [] ->
             Forall (fun r => In (Rating r) rating_scale) df ->
             (List.length df <= 50)%nat ->
             exists persons prods,
               person_summary df = Ok persons /\ product_summary df = Ok prods /\
               Forall mean_in_scale persons /\ Forall mean_in_scale prods).
  { intros df Hne Hs Hl.
    destruct (person_summary_exact df Hne Hs ltac:(lia)) as (lp & Hlp & Hp).
    destruct (product_summary_exact df Hne Hs ltac:(lia)) as (lq & Hlq & Hq).
    exists lp, lq. split; [assumption|]. split; [assumption|]. split.
    - now apply (summary_means_in_scale Person tendency df).
    - now apply (summary_means_in_scale Product quality df). }
  split; [|exact G].
  intros L st.
  destruct (script_run 42 42 st)
    as (records & persons & prods & t & Hgen & Hps & Hqs & _ & Hrun).
  eexists. eexists. split; [exact Hrun|]. cbn [shown_person_avg shown_product_avg].
  destruct (G records) as (lp & lq & Hlp & Hlq & Gp & Gq).
  - intros ->. apply generated_length in Hgen. discriminate.
  - exact (generated_scale _ _ _ _ _ Hgen).
  - rewrite (generated_length _ _ _ _ _ _ Hgen), length_prod. cbn. lia.
  - assert (lp = persons) by congruence. assert (lq = prods) by congruence.
    subst. now split.
Qed.

Lemma means_within_scale_example :
  exists persons prods,
    person_summary full_frame = Ok persons /\ product_summary full_frame = Ok prods /\
    Forall mean_in_scale persons /\ Forall mean_in_scale prods.
Proof.
  apply (proj2 means_within_scale full_frame).
  - discriminate.
  - repeat constructor; cbn; tauto.
  - cbn. lia.
Defined.

(** ** Empty tables *)

(** X14.  With no people or with no products the loop does nothing: no
    draw is taken, no key is looked up (so tables that lack keys raise
    nothing) and the state is left as it was. *)
Theorem generate_over_empty_table (L : Library) (names : list string) (pbs pb : dict)
    (st : state) :
  generate [] names pbs pb st = Ok (tt, st) /\
  generate names [] pbs pb st = Ok (tt, st).
Proof.
  split; [reflexivity|]. unfold generate.
  induction names as [|person names IH]; [reflexivity|].
  cbn [for_each]. unfold bind, ret. exact IH.
Qed.

(** * The rating formula of the specification *)

(** ** The nearest integer is unique *)

Lemma nearest_even_unique (q : QArith_base.Q) (n1 n2 : Z) :
  Spec.nearest_even q n1 -> Spec.nearest_even q n2 -> n1 = n2.
Proof.
  destruct q as [a b]. unfold Spec.nearest_even.
  unfold QArith_base.Qle, QArith_base.Qeq, QArith_base.Qminus, QArith_base.Qplus,
    QArith_base.Qopp, QArith_base.inject_Z.
  cbn [QArith_base.Qnum QArith_base.Qden].
  rewrite !Pos2Z.inj_mul.
  set (B := Zpos b). assert (HB : 0 < B) by (unfold B; lia). clearbody B.
  intros (L1 & U1 & T1) (L2 & U2 & T2).
  assert (C : n1 = n2 \/ n1 = n2 + 1 \/ n2 = n1 + 1) by nia.
  destruct C as [C | [C | C]]; [assumption| |]; exfalso.
  - subst n1. assert (E1 : Z.even (n2 + 1) = true) by (apply T1; right; nia).
    assert (E2 : Z.even n2 = true) by (apply T2; left; nia).
    rewrite Z.even_add, E2 in E1. discriminate.
  - subst n2. assert (E2 : Z.even (n1 + 1) = true) by (apply T2; right; nia).
    assert (E1 : Z.even n1 = true) by (apply T1; left; nia).
    rewrite Z.even_add, E1 in E2. discriminate.
Qed.

(** ** A finite float is determined by its value *)

Lemma mantissa_exponent_unique (m1 m2 : positive) (e1 e2 : Z) :
  bounded prec emax m1 e1 = true -> bounded prec emax m2 e2 = true ->
  Zpos m1 * 2 ^ (e1 + 1074) = Zpos m2 * 2 ^ (e2 + 1074) ->
  e1 <= e2 -> m1 = m2 /\ e1 = e2.
Proof.
  intros B1 B2 E Hle.
  apply bounded_inv in B1 as (R1 & D1 & _). apply bounded_inv in B2 as (R2 & _ & F2).
  assert (C : e1 = e2 \/ e1 < e2) by lia. destruct C as [->|Hlt].
  - split; [|reflexivity].
    assert (0 < 2 ^ (e2 + 1074)) by (apply Z.pow_pos_nonneg; lia).
    apply Pos2Z.inj. apply (Z.mul_cancel_r _ _ (2 ^ (e2 + 1074))); [lia|assumption].
  - exfalso. specialize (F2 ltac:(lia)).
    pose proof (digits2_pos_bounds m1) as P1. pose proof (digits2_pos_bounds m2) as P2.
    rewrite F2 in P2.
    assert (H1 : Zpos m1 < 2 ^ 53).
    { eapply Z.lt_le_trans; [apply P1|]. apply Z.pow_le_mono_r; lia. }
    replace (e2 + 1074) with ((e1 + 1074) + (e2 - e1)) in E by lia.
    rewrite (Z.pow_add_r 2 (e1 + 1074) (e2 - e1)) in E by lia.
    assert (H0 : 0 < 2 ^ (e1 + 1074)) by (apply Z.pow_pos_nonneg; lia).
    assert (H2 : 2 ^ 1 <= 2 ^ (e2 - e1)) by (apply Z.pow_le_mono_r; lia).
    change (2 ^ 1) with 2 in H2. change (2 ^ (53 - 1)) with 4503599627370496 in P2.
    change (2 ^ 53) with 9007199254740992 in H1.
    assert (E' : Zpos m1 = Zpos m2 * 2 ^ (e2 - e1)) by nia.
    nia.
Qed.

(** The value of a finite float in units of [2^-1074]. *)
Lemma float_Q_units (f : float) (s : bool) (m : positive) (e : Z) :
  Prim2SF f = S754_finite s m e -> -1074 <= e ->
  QArith_base.Qeq (float_Q f)
    (QArith_base.Qmake (cond_Zopp s (Zpos m) * 2 ^ (e + 1074)) (Z.to_pos (2 ^ 1074))).
Proof.
  intros Hf He. unfold float_Q. rewrite Hf. cbv zeta.
  set (sm := cond_Zopp s (Zpos m)).
  assert (HU : 0 < 2 ^ 1074) by (apply Z.pow_pos_nonneg; lia).
  destruct (0 <=? e) eqn:E.
  - apply Z.leb_le in E. unfold QArith_base.Qeq, QArith_base.inject_Z.
    cbn [QArith_base.Qnum QArith_base.Qden]. rewrite Z2Pos.id by assumption.
    rewrite (Z.pow_add_r 2 e 1074) by lia. lia.
  - apply Z.leb_gt in E. unfold QArith_base.Qeq.
    cbn [QArith_base.Qnum QArith_base.Qden].
    assert (HD : 0 < 2 ^ (- e)) by (apply Z.pow_pos_nonneg; lia).
    rewrite !Z2Pos.id by assumption.
    replace (2 ^ 1074) with (2 ^ (e + 1074) * 2 ^ (- e)); [lia|].
    rewrite <- Z.pow_add_r by lia. f_equal. lia.
Qed.

Lemma float_Q_inj (x y : float) :
  SF_is_finite (Prim2SF x) = true -> SF_is_finite (Prim2SF y) = true ->
  ~ QArith_base.Qeq (float_Q x) (QArith_base.inject_Z 0) ->
  QArith_base.Qeq (float_Q x) (float_Q y) -> x = y.
Proof.
  intros Fx Fy Hnz Heq. apply Prim2SF_inj.
  pose proof (Prim2SF_valid x) as Vx. pose proof (Prim2SF_valid y) as Vy.
  destruct (Prim2SF x) as [sx | sx | | sx mx ex] eqn:Ex; try discriminate.
  { exfalso. apply Hnz. unfold float_Q. rewrite Ex. reflexivity. }
  destruct (Prim2SF y) as [sy | sy | | sy my ey] eqn:Ey; try discriminate.
  { exfalso. apply Hnz. rewrite Heq. unfold float_Q. rewrite Ey. reflexivity. }
  cbn [valid_binary] in Vx, Vy.
  pose proof (bounded_inv _ _ Vx) as (Rx & _). pose proof (bounded_inv _ _ Vy) as (Ry & _).
  pose proof (float_Q_units x sx mx ex Ex ltac:(lia)) as Ux.
  pose proof (float_Q_units y sy my ey Ey ltac:(lia)) as Uy.
  rewrite Ux, Uy in Heq. unfold QArith_base.Qeq in Heq.
  cbn [QArith_base.Qnum QArith_base.Qden] in Heq.
  assert (HU : 0 < 2 ^ 1074) by (apply Z.pow_pos_nonneg; lia).
  rewrite Z2Pos.id in Heq by assumption.
  assert (Hx : 0 < 2 ^ (ex + 1074)) by (apply Z.pow_pos_nonneg; lia).
  assert (Hy : 0 < 2 ^ (ey + 1074)) by (apply Z.pow_pos_nonneg; lia).
  set (U := 2 ^ 1074) in *. clearbody U.
  assert (Hs : sx = sy).
  { destruct sx, sy; cbn [cond_Zopp] in Heq; try reflexivity; exfalso; nia. }
  subst sy.
  assert (Hm : Zpos mx * 2 ^ (ex + 1074) = Zpos my * 2 ^ (ey + 1074)).
  { destruct sx; cbn [cond_Zopp] in Heq; nia. }
  destruct (Z.le_ge_cases ex ey) as [Hle|Hle].
  - destruct (mantissa_exponent_unique mx my ex ey Vx Vy Hm Hle) as [-> ->]. reflexivity.
  - symmetry in Hm.
    destruct (mantissa_exponent_unique my mx ey ex Vy Vx Hm Hle) as [-> ->]. reflexivity.
Qed.

(** ** The script's rating is the one the formula gives *)

Lemma scale_finite (r : float) : In r rating_scale -> SF_is_finite (Prim2SF r) = true.
Proof.
  unfold rating_scale. cbn [In]. intros H.
  repeat (destruct H as [<- | H]); [..|contradiction]; reflexivity.
Qed.

Lemma rated_one (raw : float) : Spec.clamp raw = 1%float -> Spec.rated raw 1.
Proof.
  intros H. exists 2. rewrite H. split; [|split; reflexivity].
  split; [|split]; [vm_compute; discriminate..|intros _; reflexivity].
Qed.

Lemma rated_five (raw : float) : Spec.clamp raw = 5%float -> Spec.rated raw 5.
Proof.
  intros H. exists 10. rewrite H. split; [|split; reflexivity].
  split; [|split]; [vm_compute; discriminate..|intros _; reflexivity].
Qed.

(** Strictly inside the scale. *)
Lemma rated_between (raw : float) :
  PrimFloat.ltb 1 raw = true -> PrimFloat.ltb raw 5 = true ->
  Spec.clamp raw = raw ->
  exists rating,
    quantize (clamp (Py.Float raw)) = Ok rating /\ In rating rating_scale /\
    Spec.rated raw rating.
Proof.
  intros H1 H5 Hc.
  destruct (rating_between raw H1 H5) as (m & e & r & Hx & Hd & He & Hk & Hr & Hq).
  destruct (round_half_even_nearest m (e + 1) ltac:(lia)) as [Hnear Htie].
  destruct (float_Q_halves _ r Hk Hr) as (_ & n & p & Er & Hn).
  destruct (float_Q_fraction raw m e Hx ltac:(lia)) as (pd & Eraw & Hpd).
  destruct (truediv_scale _ Hk) as (r' & Hr' & Hin).
  assert (r' = r) by congruence. subst r'.
  exists r. split; [exact Hq|]. split; [exact Hin|].
  set (k := Py.round_half_even m (e + 1)) in *. clearbody k.
  exists k. split; [|split; [now apply scale_finite|]].
  - assert (HD : 2 ^ (- e) = 2 * 2 ^ (- (e + 1))).
    { replace (- e) with (Z.succ (- (e + 1))) by lia. apply Z.pow_succ_r. lia. }
    assert (Hd0 : 0 < 2 ^ (- (e + 1))) by (apply Z.pow_pos_nonneg; lia).
    set (d := 2 ^ (- (e + 1))) in *. rewrite HD in Hpd.
    rewrite Hc, Eraw. unfold Spec.nearest_even.
    unfold QArith_base.Qle, QArith_base.Qeq, QArith_base.Qminus, QArith_base.Qplus,
      QArith_base.Qopp, QArith_base.Qmult, QArith_base.inject_Z.
    cbn [QArith_base.Qnum QArith_base.Qden Pos.mul].
    rewrite !Pos2Z.inj_mul, Hpd.
    set (M := Zpos m) in *. set (kd := k * d) in *.
    assert (Hkd : k * (2 * d * 2) = 4 * kd) by (unfold kd; ring).
    rewrite Hkd. clearbody kd M.
    split; [lia|]. split; [lia|].
    intros T. apply Htie. destruct T as [T|T]; lia.
  - rewrite Er. unfold QArith_base.Qeq. cbn [QArith_base.Qnum QArith_base.Qden]. lia.
Qed.

(** Whatever the raw score, NaN apart, clamping and quantizing it as the
    script does gives a rating of the scale, the one the formula gives. *)
Lemma rated_exists (raw : float) :
  Prim2SF raw <> S754_nan ->
  exists rating,
    quantize (clamp (Py.Float raw)) = Ok rating /\ In rating rating_scale /\
    Spec.rated raw rating.
Proof.
  intros Hn.
  destruct (SFcompare_Z_some _ 1 Hn) as [c1 H1].
  destruct (SFcompare_Z_some _ 5 Hn) as [c5 H5].
  assert (Hc : Spec.clamp raw
               = match c1 with
                 | Lt => 1%float
                 | _ => match c5 with Gt => 5%float | _ => raw end
                 end).
  { unfold Spec.clamp. rewrite ltb_1_exact, ltb_5_exact, H1, H5. now destruct c1, c5. }
  assert (In1 : In 1%float rating_scale) by (cbn; tauto).
  assert (In5 : In 5%float rating_scale) by (cbn; tauto).
  destruct c5.
  - (* the raw score is 5.0 *)
    apply SFcompare_Z_Eq_5 in H5. rewrite H5. exists 5%float.
    split; [reflexivity|]. split; [assumption|now apply rated_five].
  - destruct c1.
    + apply SFcompare_Z_Eq_1 in H1. rewrite H1. exists 1%float.
      split; [reflexivity|]. split; [assumption|now apply rated_one].
    + exists 1%float. split; [|split; [assumption|now apply rated_one]].
      apply rating_saturates_low. now rewrite leb_1_exact, H1.
    + apply rated_between; [now rewrite ltb_gt_1_exact, H1|now rewrite ltb_lt_5_exact, H5|
                            assumption].
  - exists 5%float. split; [|split; [assumption|]].
    + apply rating_saturates_high. now rewrite leb_5_exact, H5.
    + apply rated_five. rewrite Hc. destruct c1; try reflexivity.
      apply (SFcompare_Z_mono _ 1 5) in H1; [congruence|lia].
Qed.

Lemma scale_nonzero (r : float) :
  In r rating_scale -> ~ QArith_base.Qeq (float_Q r) (QArith_base.inject_Z 0).
Proof.
  unfold rating_scale. cbn [In]. intros H.
  repeat (destruct H as [<- | H]); [..|contradiction]; vm_compute; discriminate.
Qed.

(** The formula determines the rating. *)
Lemma rated_functional (raw rating1 rating2 : float) :
  Prim2SF raw <> S754_nan ->
  Spec.rated raw rating1 -> Spec.rated raw rating2 -> rating1 = rating2.
Proof.
  intros Hn (n1 & N1 & F1 & V1) (n2 & N2 & F2 & V2).
  destruct (rated_exists raw Hn) as (r0 & _ & Hin & n0 & N0 & F0 & V0).
  assert (n1 = n0) by (eapply nearest_even_unique; eassumption).
  assert (n2 = n0) by (eapply nearest_even_unique; eassumption).
  subst n1 n2. pose proof (scale_nonzero r0 Hin) as Hnz.
  transitivity r0.
  - symmetry. apply float_Q_inj; try assumption. now rewrite V0, V1.
  - apply float_Q_inj; try assumption. now rewrite V0, V2.
Qed.

Lemma table_sum_finite (person product : string) (base_score bias : float) :
  In (product, base_score) product_base_scores ->
  In (person, bias) person_bias ->
  SF_is_finite (Prim2SF (base_score + bias)) = true.
Proof.
  intros Hb Hp.
  unfold product_base_scores in Hb. unfold person_bias in Hp. cbn [In] in Hb, Hp.
  repeat (destruct Hb as [Hb | Hb]; [injection Hb as <- <-|]); try contradiction.
  all: repeat (destruct Hp as [Hp | Hp]; [injection Hp as <- <-|]); try contradiction.
  all: reflexivity.
Qed.

(** What the loop generates from the tables follows the formula, the
    looked-up values being those the tables list. *)
Lemma generated_follows pairs draws records :
  generated compute_rating product_base_scores person_bias pairs draws records ->
  Forall (fun noise => is_nan noise = false) draws ->
  follows_formula product_base_scores person_bias pairs draws records.
Proof.
  induction 1 as [|person product noise base_score bias rating pairs draws records
                   Hb Hp Hr Hgen IH]; intros Hd.
  - constructor.
  - inversion Hd as [|? ? Hnoise Hd']; subst.
    apply dict_get_In in Hb, Hp.
    apply (follows_cons _ _ person product noise base_score bias);
      [assumption|assumption| |now apply IH].
    assert (Hn : Prim2SF (base_score + bias + noise) <> S754_nan).
    { apply add_not_nan; [|assumption]. now apply (table_sum_finite person product). }
    destruct (rated_exists _ Hn) as (r & Hq & _ & Hrated).
    unfold compute_rating in Hr. congruence.
Qed.

(** C1.  Every generated rating is the one the specification's formula
    gives: the raw score is the base quality the table lists for the
    product, plus the bias the table lists for the person, plus the pair's
    noise draw; it is clamped to [1.0, 5.0]; and the rating is the float
    whose value is half the integer nearest to twice the clamped score, the
    even one on a tie.  It holds of the fifty records of a run whose draws
    are numbers, and of every base, bias and draw whose sum is a number; the
    formula leaves no choice of rating, and no key is listed twice in a
    table.  With base 4.2, bias 0.8 and noise 0.25 the clamped value is 5.0
    and the rating 5.0, and with base 3.0, bias 0.0 and noise 0.0 the rating
    is 3.0. *)
Theorem rating_follows_formula :
  (forall (L : Library) (st : state),
      Forall (fun noise => is_nan noise = false)
             (fst (np_draws 50 (np_random_seed 42))) ->
      exists rep st',
        main st = Ok (rep, st') /\
        follows_formula product_base_scores person_bias
                        (list_prod people products)
                        (fst (np_draws 50 (np_random_seed 42))) (shown_dataset rep)) /\
  (forall base_score bias noise : float,
      is_nan (base_score + bias + noise) = false ->
      exists rating,
        compute_rating base_score bias noise = Ok rating /\
        Spec.rated (base_score + bias + noise) rating) /\
  (forall raw rating1 rating2 : float,
      is_nan raw = false ->
      Spec.rated raw rating1 -> Spec.rated raw rating2 -> rating1 = rating2) /\
  NoDup (map fst product_base_scores) /\ NoDup (map fst person_bias) /\
  Spec.clamp (4.2 + 0.8 + 0.25) = 5%float /\
  compute_rating 4.2 0.8 0.25 = Ok 5%float /\
  compute_rating 3.0 0.0 0.0 = Ok 3%float.
Proof.
  split; [|split; [|split; [|split; [|split]]]].
  - intros L st Hdraws.
    destruct (script_run 42 42 st)
      as (records & persons & prods & t & Hgen & _ & _ & _ & Hrun).
    eexists. eexists. split; [exact Hrun|]. cbn [shown_dataset].
    now apply generated_follows.
  - intros base_score bias noise Hn. apply Prim2SF_not_nan in Hn.
    destruct (rated_exists _ Hn) as (r & Hq & _ & Hrated).
    exists r. split; [exact Hq|exact Hrated].
  - intros raw rating1 rating2 Hn. apply rated_functional. now apply Prim2SF_not_nan.
  - exact products_NoDup.
  - exact people_NoDup.
  - repeat split; reflexivity.
Qed.

Lemma rating_follows_formula_witness :
  exists rep st',
    @main (tape_library sample_tape) fresh_state = Ok (rep, st') /\
    follows_formula product_base_scores person_bias (list_prod people products)
      (fst (@np_draws (tape_library sample_tape) 50 sample_tape)) (shown_dataset rep).
Proof.
  apply (proj1 rating_follows_formula (tape_library sample_tape) fresh_state).
  vm_compute. repeat constructor.
Defined.

(** * The exported file *)

(** ** Splitting a text *)

Lemma occurs_app (c : ascii) (s t : string) :
  occurs c (s ++ t) = occurs c s || occurs c t.
Proof.
  induction s as [|a s IH]; cbn [append occurs]; [reflexivity|].
  now rewrite IH, orb_assoc.
Qed.

Lemma split_on_none (c : ascii) (s : string) :
  occurs c s = false -> split_on c s = [s].
Proof.
  induction s as [|a s IH]; cbn [occurs split_on]; [reflexivity|].
  intros H. apply orb_false_iff in H as [Ha Hs]. now rewrite Ha, (IH Hs).
Qed.

Lemma split_on_app (c : ascii) (s t : string) :
  occurs c s = false -> split_on c (s ++ String c t) = s :: split_on c t.
Proof.
  induction s as [|a s IH]; cbn [occurs append split_on].
  - intros _. now rewrite Ascii.eqb_refl.
  - intros H. apply orb_false_iff in H as [Ha Hs]. now rewrite Ha, (IH Hs).
Qed.

Lemma append_assoc (s t u : string) : ((s ++ t) ++ u = s ++ (t ++ u))%string.
Proof. induction s as [|a s IH]; cbn [append]; [reflexivity|]. now rewrite IH. Qed.

(** A text made of rows that hold no line feed, each followed by one,
    splits into these rows and the empty piece after the last line feed. *)
Lemma split_lines (rows : list string) :
  Forall (fun row => occurs "010"%char row = false) rows ->
  split_on "010"%char (String.concat "" (map (fun row => (row ++ newline)%string) rows))
  = rows ++ [""].
Proof.
  induction 1 as [|row rows Hrow Hrows IH]; [reflexivity|].
  assert (E : String.concat "" (map (fun row => (row ++ newline)%string) (row :: rows))
              = (row ++ String "010"%char
                   (String.concat "" (map (fun row => (row ++ newline)%string) rows)))%string).
  { cbn [map String.concat]. destruct rows as [|row' rows].
    - reflexivity.
    - cbn [map]. cbn [append]. unfold newline. now rewrite append_assoc. }
  rewrite E, (split_on_app _ _ _ Hrow), IH. reflexivity.
Qed.

(** ** The fields of a row *)

Lemma csv_field_plain (s : string) :
  occurs ","%char s = false -> occurs double_quote s = false ->
  occurs "010"%char s = false -> csv_field s = s.
Proof.
  intros Hc Hq Hn. unfold csv_field.
  assert (E : csv_special s = false).
  { induction s as [|a s IH]; [reflexivity|]. cbn [occurs csv_special newline] in *.
    apply orb_false_iff in Hc as [Hc1 Hc2]. apply orb_false_iff in Hq as [Hq1 Hq2].
    apply orb_false_iff in Hn as [Hn1 Hn2].
    rewrite Hc1, Hq1, (IH Hc2 Hq2 Hn2), (Ascii.eqb_sym "010"%char a), Hn1. reflexivity. }
  now rewrite E.
Qed.

Lemma people_plain :
  Forall (fun s => occurs ","%char s = false /\ occurs double_quote s = false
                   /\ occurs "010"%char s = false) people.
Proof. repeat constructor. Qed.

Lemma products_plain :
  Forall (fun s => occurs ","%char s = false /\ occurs double_quote s = false
                   /\ occurs "010"%char s = false) products.
Proof. repeat constructor. Qed.

Section Rows.

Context {L : Library}.

(** The numeral written for a rating of the scale holds no comma, quote
    or line feed, and its value is the rating. *)
Lemma scale_numeral (x : float) :
  In x rating_scale ->
  occurs ","%char (float_text x) = false /\
  occurs double_quote (float_text x) = false /\
  occurs "010"%char (float_text x) = false /\
  exists q, decimal_value (float_text x) = Some q /\ QArith_base.Qeq q (float_Q x).
Proof.
  unfold rating_scale. cbn [In]. intros H.
  repeat (destruct H as [<- | H]); [..|contradiction];
    (split; [reflexivity|]); (split; [reflexivity|]); (split; [reflexivity|]);
    eexists; (split; [reflexivity|]); reflexivity.
Qed.

(** The row written for a record of the script: one line, made of the
    person, the product and the rating's numeral. *)
Lemma record_row (r : rating_record) :
  In (Person r) people -> In (Product r) products -> In (Rating r) rating_scale ->
  occurs "010"%char (csv_row [Person r; Product r; float_text (Rating r)]) = false /\
  row_holds (csv_row [Person r; Product r; float_text (Rating r)]) r.
Proof.
  intros Hp Hq Hr.
  pose proof people_plain as Pp. pose proof products_plain as Pq.
  rewrite Forall_forall in Pp, Pq.
  destruct (Pp _ Hp) as (Pc & Pd & Pn). destruct (Pq _ Hq) as (Qc & Qd & Qn).
  destruct (scale_numeral _ Hr) as (Tc & Td & Tn & q & Hq' & Hv).
  unfold csv_row. cbn [map String.concat].
  rewrite (csv_field_plain _ Pc Pd Pn), (csv_field_plain _ Qc Qd Qn),
    (csv_field_plain _ Tc Td Tn).
  cbn [append]. split.
  - rewrite occurs_app. cbn [occurs]. rewrite occurs_app. cbn [occurs].
    now rewrite Pn, Qn, Tn.
  - exists (float_text (Rating r)), q. split; [|split; assumption].
    rewrite (split_on_app _ _ _ Pc), (split_on_app _ _ _ Qc), (split_on_none _ _ Tc).
    reflexivity.
Qed.

Lemma records_rows (records : list rating_record) :
  Forall (fun r => In (Person r) people /\ In (Product r) products
                   /\ In (Rating r) rating_scale) records ->
  Forall (fun row => occurs "010"%char row = false)
         (map (fun r => csv_row [Person r; Product r; float_text (Rating r)]) records) /\
  Forall2 row_holds
          (map (fun r => csv_row [Person r; Product r; float_text (Rating r)]) records)
          records.
Proof.
  induction 1 as [|r records (Hp & Hq & Hr) _ [IH1 IH2]]; cbn [map].
  - split; constructor.
  - destruct (record_row r Hp Hq Hr) as [Hn Hh]. split; constructor; assumption.
Qed.

End Rows.

Lemma generated_known (records : list rating_record) :
  map pair_of records = list_prod people products ->
  Forall (fun r => In (Rating r) rating_scale) records ->
  Forall (fun r => In (Person r) people /\ In (Product r) products
                   /\ In (Rating r) rating_scale) records.
Proof.
  intros Hpairs Hs. rewrite Forall_forall in Hs. apply Forall_forall. intros r Hr.
  assert (Hin : In (pair_of r) (list_prod people products)).
  { rewrite <- Hpairs. now apply in_map. }
  apply in_prod_iff in Hin as [Hp Hq]. cbn [pair_of fst snd] in Hp, Hq. auto.
Qed.

(** C9.  The file a run writes is comma-separated text.  Split at its line
    feeds it is the line Person,Product,Rating first, then one line for
    each record, in the order the records were generated, and nothing after
    the last line feed.  The line of a record, split at its commas, is the
    person, the product and a numeral whose value is the rating: three
    fields, none for an index. *)
Theorem csv_export_rows (L : Library) (st : state) :
  exists rep st' text rows,
    main st = Ok (rep, st') /\
    files st' = ("product_ratings.csv", text) :: files st /\
    split_on "010"%char text = "Person,Product,Rating" :: rows ++ [""] /\
    Forall2 row_holds rows (shown_dataset rep) /\
    ratings_data st' = shown_dataset rep /\
    map pair_of (shown_dataset rep) = list_prod people products /\
    List.length rows = 50%nat.
Proof.
  destruct (script_run 42 42 st)
    as (records & persons & prods & t & Hgen & _ & _ & _ & Hrun).
  pose proof (generated_pairs _ _ _ _ _ _ Hgen) as Hpairs.
  pose proof (generated_known records Hpairs (generated_scale _ _ _ _ _ Hgen)) as Hknown.
  destruct (records_rows records Hknown) as [Hlines Hrows].
  set (rows := map (fun r => csv_row [Person r; Product r; float_text (Rating r)]) records)
    in *.
  exists (mkReport records persons prods t (List.length records)).
  eexists. exists (csv_text records), rows.
  split; [exact Hrun|]. cbn [shown_dataset files ratings_data].
  split; [reflexivity|]. split; [|split; [exact Hrows|split; [reflexivity|split]]].
  - assert (Hne : records <> []).
    { intros ->. apply generated_length in Hgen. discriminate. }
    unfold csv_text, csv_rows. fold rows.
    replace (csv_row (column_names records)) with "Person,Product,Rating"
      by (destruct records; [congruence|reflexivity]).
    rewrite (split_lines ("Person,Product,Rating" :: rows)); [reflexivity|].
    constructor; [reflexivity|exact Hlines].
  - exact Hpairs.
  - unfold rows. rewrite length_map.
    now rewrite (generated_length _ _ _ _ _ _ Hgen), length_prod.
Qed.
